(** * Task store of the todo application (src/src/App.tsx)

    Shallow embedding of the state-management and view-derivation code of
    the [App] component: the [Todo] record, the mutations [addTodo],
    [saveEdit] and [handleDrop], the sort stage of
    [filteredAndSortedTodos], the [stats] record, and the persistence pair
    [JSON.stringify] / hydration through [JSON.parse].

    JavaScript strings are sequences of UTF-16 code units, modelled as
    [list Z].  React state updates are modelled as functions from the
    current canonical list to the next one. *)

From Stdlib Require Import String Ascii.
From Stdlib Require Import ZArith List Lia Bool Permutation.
From Stdlib Require Import QArith Qround Sorting.Sorted.
Import ListNotations.
Open Scope Z_scope.
Set Warnings "-register-all".


(* ------------------------------------------------------------------ *)
(** ** JavaScript strings *)

Definition jstr := list Z.

(** ASCII literal to code units, for the fixed keys and literals of the code. *)
Fixpoint u (s : string) : jstr :=
  match s with
  | EmptyString => []
  | String c s' => Z.of_nat (nat_of_ascii c) :: u s'
  end.

(** WhiteSpace and LineTerminator code points, as stripped by
    [String.prototype.trim]. *)
Definition is_js_space (c : Z) : bool :=
  (c =? 9) || (c =? 10) || (c =? 11) || (c =? 12) || (c =? 13) || (c =? 32)
  || (c =? 160) || (c =? 5760) || ((8192 <=? c) && (c <=? 8202))
  || (c =? 8232) || (c =? 8233) || (c =? 8239) || (c =? 8287)
  || (c =? 12288) || (c =? 65279).

Fixpoint drop_space (s : jstr) : jstr :=
  match s with
  | [] => []
  | c :: s' => if is_js_space c then drop_space s' else s
  end.

(** [s.trim()] *)
Definition trim (s : jstr) : jstr := rev (drop_space (rev (drop_space s))).

Definition is_empty (s : jstr) : bool :=
  match s with [] => true | _ => false end.

(* ------------------------------------------------------------------ *)
(** ** Data model: [interface Todo] *)

Inductive prio := Low | Medium | High.

(** [createdAt] is held as the time value of the [Date] (milliseconds
    since the epoch); optional fields are [option]. *)
Record Todo := mkTodo {
  id : Z;
  text : jstr;
  completed : bool;
  priority : prio;
  category : jstr;
  dueDate : option jstr;
  createdAt : Z;
  notes : option jstr
}.

(* ------------------------------------------------------------------ *)
(** ** Mutations *)

(** [addTodo]: reads the form state ([input], [priority],
    [selectedCategory], [newCategory], [dueDate], [notes]); [now_id] is the
    value of [Date.now()] and [now_created] the time value of
    [new Date()], read one after the other. *)
Definition addTodo (input : jstr) (pr : prio)
    (selectedCategory newCategory dueDate0 notes0 : jstr)
    (now_id now_created : Z) (todos : list Todo) : list Todo :=
  if is_empty (trim input) then todos
  else
    {| id := now_id;
       text := trim input;
       completed := false;
       priority := pr;
       category := if is_empty selectedCategory then newCategory
                   else selectedCategory;
       dueDate := if is_empty dueDate0 then None else Some dueDate0;
       createdAt := now_created;
       notes := if is_empty notes0 then None else Some notes0 |} :: todos.

(** [saveEdit(id)] with the draft [editText]. *)
Definition saveEdit (editText : jstr) (id0 : Z) (todos : list Todo)
    : list Todo :=
  if is_empty (trim editText) then todos
  else map (fun t => if id t =? id0 then
                       {| id := id t; text := trim editText;
                          completed := completed t; priority := priority t;
                          category := category t; dueDate := dueDate t;
                          createdAt := createdAt t; notes := notes t |}
                     else t) todos.

(** [Array.prototype.findIndex]; [None] stands for [-1]. *)
Fixpoint find_index {A} (p : A -> bool) (l : list A) : option nat :=
  match l with
  | [] => None
  | x :: l' => if p x then Some 0%nat
               else option_map S (find_index p l')
  end.

(** [arr.splice(n, 1)] and [arr.splice(n, 0, x)] for [n] within bounds. *)
Definition remove_at {A} (n : nat) (l : list A) : list A :=
  firstn n l ++ skipn (S n) l.

Definition insert_at {A} (n : nat) (x : A) (l : list A) : list A :=
  firstn n l ++ x :: skipn n l.

Definition has_id (i : Z) (t : Todo) : bool := id t =? i.

(** [handleDrop(e, targetId)] with the [draggedItem] state. *)
Definition handleDrop (draggedItem : option Z) (targetId : Z)
    (todos : list Todo) : list Todo :=
  match draggedItem with
  | None => todos
  | Some d =>
      match find_index (has_id d) todos, find_index (has_id targetId) todos with
      | Some di, Some ti =>
          match nth_error todos di with
          | Some draggedTodo => insert_at ti draggedTodo (remove_at di todos)
          | None => todos
          end
      | _, _ => todos
      end
  end.

(** The spec's [reorder(draggedId, targetId)]: a drop after a drag start. *)
Definition reorder (draggedId targetId : Z) (todos : list Todo) : list Todo :=
  handleDrop (Some draggedId) targetId todos.

(* ------------------------------------------------------------------ *)
(** ** Dates: time values, [Date.prototype.toISOString], [Date.parse] *)

Notation "'do' x <- a ; b" :=
  (match a with Some x => b | None => None end)
  (at level 200, x name, a at level 100, b at level 200).

Definition is_digit (c : Z) : bool := (48 <=? c) && (c <=? 57).

(** The [k] decimal digits of [n mod 10^k], most significant first. *)
Fixpoint fixdigits (k : nat) (n : Z) : jstr :=
  match k with
  | O => []
  | S k' => (48 + (n / 10 ^ Z.of_nat k') mod 10) :: fixdigits k' n
  end.

(** Reads exactly [k] decimal digits. *)
Fixpoint read_fixed (k : nat) (s : jstr) : option (Z * jstr) :=
  match k with
  | O => Some (0, s)
  | S k' =>
      match s with
      | c :: s' =>
          if is_digit c then
            do p <- read_fixed k' s';
            Some ((c - 48) * 10 ^ Z.of_nat k' + fst p, snd p)
          else None
      | [] => None
      end
  end.

Definition expect (c : Z) (s : jstr) : option jstr :=
  match s with
  | c' :: s' => if c' =? c then Some s' else None
  | [] => None
  end.

Definition msPerDay : Z := 86400000.

(** Day number (days since 1970-01-01) of a proleptic Gregorian date. *)
Definition days_from_civil (y m d : Z) : Z :=
  let y := if m <=? 2 then y - 1 else y in
  let era := y / 400 in
  let yoe := y - era * 400 in
  let mp := if 2 <? m then m - 3 else m + 9 in
  let doy := (153 * mp + 2) / 5 + d - 1 in
  let doe := yoe * 365 + yoe / 4 - yoe / 100 + doy in
  era * 146097 + doe - 719468.

(** Proleptic Gregorian date of a day number. *)
Definition civil_from_days (z : Z) : Z * Z * Z :=
  let z := z + 719468 in
  let era := z / 146097 in
  let doe := z - era * 146097 in
  let yoe := (doe - doe / 1460 + doe / 36524 - doe / 146096) / 365 in
  let y := yoe + era * 400 in
  let doy := doe - (365 * yoe + yoe / 4 - yoe / 100) in
  let mp := (5 * doy + 2) / 153 in
  let d := doy - (153 * mp + 2) / 5 + 1 in
  let m := if mp <? 10 then mp + 3 else mp - 9 in
  (if m <=? 2 then y + 1 else y, m, d).

Definition is_leap (y : Z) : bool :=
  (y mod 4 =? 0) && (negb (y mod 100 =? 0) || (y mod 400 =? 0)).

Definition days_in_month (y m : Z) : Z :=
  if m =? 2 then (if is_leap y then 29 else 28)
  else if (m =? 4) || (m =? 6) || (m =? 9) || (m =? 11) then 30
  else 31.

(** TimeClip: time values beyond 8.64e15 ms are NaN ([None]). *)
Definition time_clip (t : Z) : option Z :=
  if Z.abs t <=? 8640000000000000 then Some t else None.

(** [Date.prototype.toISOString] of a valid time value:
    [YYYY-MM-DDTHH:mm:ss.sssZ], the year expanded to a sign and six digits
    outside 0..9999. *)
Definition iso_year (y : Z) : jstr :=
  if (0 <=? y) && (y <=? 9999) then fixdigits 4 y
  else (if y <? 0 then u "-" else u "+") ++ fixdigits 6 (Z.abs y).

Definition toISOString (t : Z) : jstr :=
  let dn := t / msPerDay in
  let ms := t mod msPerDay in
  let '(y, m, d) := civil_from_days dn in
  iso_year y ++ u "-" ++ fixdigits 2 m ++ u "-" ++ fixdigits 2 d ++ u "T"
  ++ fixdigits 2 (ms / 3600000) ++ u ":" ++ fixdigits 2 ((ms / 60000) mod 60)
  ++ u ":" ++ fixdigits 2 ((ms / 1000) mod 60) ++ u "."
  ++ fixdigits 3 (ms mod 1000) ++ u "Z".

Definition read_year (s : jstr) : option (Z * jstr) :=
  match s with
  | c :: r =>
      if (c =? 43) || (c =? 45) then
        do p <- read_fixed 6 r;
        if (c =? 45) && (fst p =? 0) then None
        else Some (if c =? 45 then - fst p else fst p, snd p)
      else read_fixed 4 s
  | [] => None
  end.

(** The longest prefix of decimal digits, and the rest. *)
Fixpoint span_digits (s : jstr) : jstr * jstr :=
  match s with
  | c :: s' => if is_digit c then (c :: fst (span_digits s'), snd (span_digits s'))
               else ([], s)
  | [] => ([], [])
  end.

(** The value of a run of decimal digits. *)
Definition digits_value (ds : jstr) : Z :=
  fold_left (fun acc d => acc * 10 + (d - 48)) ds 0.

(** A fraction of a second: the first three digits, padded with zeros
    ([.5] is 500 ms, [.1234] is 123 ms). *)
Definition frac_ms (fds : jstr) : Z :=
  digits_value (firstn 3 (fds ++ [48; 48; 48])).

(** The time zone designator: [Z] (or [z]) is UTC, [+HH:mm] and [-HH:mm]
    an offset in ms; [Some None] is the absent designator. *)
Definition read_zone (s : jstr) : option (option Z) :=
  match s with
  | [] => Some None
  | c :: r =>
      if (c =? 90) || (c =? 122) then
        match r with [] => Some (Some 0) | _ => None end
      else if (c =? 43) || (c =? 45) then
        do p <- read_fixed 2 r; let '(oh, r) := p in
        do r <- expect 58 r;
        do p <- read_fixed 2 r; let '(om, r) := p in
        match r with
        | [] => if (oh <=? 23) && (om <=? 59)
                then Some (Some ((if c =? 45 then -1 else 1) * (oh * 3600000 + om * 60000)))
                else None
        | _ => None
        end
      else None
  end.

(** [Date.parse] as V8 does it on the Date Time String Format:
    [YYYY], [YYYY-MM] or [YYYY-MM-DD], optionally followed by [T] (or [t])
    and [HH:mm], [HH:mm:ss] or [HH:mm:ss.f...], and by a time zone
    designator.  A date-only form is UTC.  The month must be 1..12 and the
    day 1..31; a day past the end of its month carries into the next
    month, as in V8 ([2024-02-30] is 2024-03-01).  The hour is 0..23, or 24
    with the rest zero; minutes and seconds are 0..59.  A date-time form
    without a designator is local time, which depends on the host's time
    zone; such strings, and the strings V8 hands to its
    implementation-specific fallback parser, give NaN ([None]) here. *)
Definition date_parse (s : jstr) : option Z :=
  do p <- read_year s; let '(y, s) := p in
  do q <- match s with
          | c :: r =>
              if c =? 45 then
                do p <- read_fixed 2 r; let '(m, r) := p in
                match r with
                | c' :: r' =>
                    if c' =? 45 then
                      do p <- read_fixed 2 r'; let '(d, r') := p in
                      Some (m, d, r')
                    else Some (m, 1, r)
                | [] => Some (m, 1, r)
                end
              else Some (1, 1, s)
          | [] => Some (1, 1, s)
          end;
  let '(m, d, s) := q in
  if negb ((1 <=? m) && (m <=? 12) && (1 <=? d) && (d <=? 31)) then None
  else
    match s with
    | [] => time_clip (days_from_civil y m d * msPerDay)
    | c :: s =>
        if (c =? 84) || (c =? 116) then
          do p <- read_fixed 2 s; let '(hh, s) := p in
          do s <- expect 58 s;
          do p <- read_fixed 2 s; let '(mi, s) := p in
          do q <- match s with
                  | c :: r =>
                      if c =? 58 then
                        do p <- read_fixed 2 r; let '(ss, r) := p in
                        match r with
                        | c' :: r' =>
                            if c' =? 46 then
                              let '(fds, r'') := span_digits r' in
                              match fds with
                              | [] => None
                              | _ => Some (ss, frac_ms fds, r'')
                              end
                            else Some (ss, 0, r)
                        | [] => Some (ss, 0, r)
                        end
                      else Some (0, 0, s)
                  | [] => Some (0, 0, s)
                  end;
          let '(ss, ms, s) := q in
          do z <- read_zone s;
          match z with
          | None => None
          | Some off =>
              if (mi <=? 59) && (ss <=? 59) &&
                 ((hh <? 24) || ((hh =? 24) && (mi =? 0) && (ss =? 0) && (ms =? 0)))
              then time_clip (days_from_civil y m d * msPerDay + hh * 3600000
                              + mi * 60000 + ss * 1000 + ms - off)
              else None
          end
        else None
    end.

(* ------------------------------------------------------------------ *)
(** ** View derivation: the sort stage of [filteredAndSortedTodos] *)

Inductive SortType := SCreated | SPriority | SDueDate | SAlphabetical.

(** [const priorityOrder = { high: 3, medium: 2, low: 1 }] *)
Definition priorityOrder (p : prio) : Z :=
  match p with High => 3 | Medium => 2 | Low => 1 end.

(** JavaScript truthiness of the optional [dueDate] string. *)
Definition has_due (t : Todo) : bool :=
  match dueDate t with Some (_ :: _) => true | _ => false end.

(** [new Date(t.dueDate).getTime()]; [None] is NaN. *)
Definition due_time (t : Todo) : option Z :=
  match dueDate t with Some s => date_parse s | None => None end.

(** The comparator passed to [.sort]; a result [None] is NaN.
    [localeCompare] is the host's locale-aware string comparison. *)
Definition compare_todos (localeCompare : jstr -> jstr -> Z) (sort : SortType)
    (a b : Todo) : option Z :=
  match sort with
  | SPriority => Some (priorityOrder (priority b) - priorityOrder (priority a))
  | SDueDate =>
      if negb (has_due a) && negb (has_due b) then Some 0
      else if negb (has_due a) then Some 1
      else if negb (has_due b) then Some (-1)
      else match due_time a, due_time b with
           | Some x, Some y => Some (x - y)
           | _, _ => None
           end
  | SAlphabetical => Some (localeCompare (text a) (text b))
  | SCreated => Some (createdAt b - createdAt a)
  end.

(** SortCompare reads a NaN comparator result as +0. *)
Definition sort_compare (v : option Z) : Z :=
  match v with Some z => z | None => 0 end.

(** [Array.prototype.sort] with a comparator: a stable sort, here
    insertion sort; [a] is placed after [b] only when the comparator is
    positive.  For a consistent comparator this is the unique stable sorted
    permutation that ECMAScript prescribes. *)
Fixpoint insert_sorted {A} (cmp : A -> A -> option Z) (x : A) (l : list A)
    : list A :=
  match l with
  | [] => [x]
  | y :: l' => if sort_compare (cmp x y) <=? 0 then x :: l
               else y :: insert_sorted cmp x l'
  end.

Fixpoint js_sort {A} (cmp : A -> A -> option Z) (l : list A) : list A :=
  match l with
  | [] => []
  | x :: l' => insert_sorted cmp x (js_sort cmp l')
  end.

Definition sortTodos (localeCompare : jstr -> jstr -> Z) (sort : SortType)
    (l : list Todo) : list Todo :=
  js_sort (compare_todos localeCompare sort) l.

(* ------------------------------------------------------------------ *)
(** ** Statistics: the [stats] object and the completion rate *)

Record Stats := mkStats {
  st_total : Z;
  st_completed : Z;
  st_active : Z;
  st_overdue : Z
}.

(** [new Date(t.dueDate) < new Date()], the clock read as [now]. *)
Definition due_before (now : Z) (t : Todo) : bool :=
  match due_time t with Some x => x <? now | None => false end.

Definition stats (now : Z) (todos : list Todo) : Stats :=
  {| st_total := Z.of_nat (length todos);
     st_completed := Z.of_nat (length (filter (fun t => completed t) todos));
     st_active := Z.of_nat (length (filter (fun t => negb (completed t)) todos));
     st_overdue := Z.of_nat (length (filter (fun t =>
                     has_due t && due_before now t && negb (completed t)) todos)) |}.

(** [Math.round] on the (exact) value of a double: the nearest integer,
    ties towards +infinity. *)
Definition math_round (q : Q) : Z := Qfloor (q + (1 # 2)).

(** The IEEE 754 binary64 value nearest to [q], ties to even, as the
    rational it denotes.  [lg] is [floor (log2 |q|)]; a normal value has a
    53-bit significand [m] with [2 ^ 52 <= m < 2 ^ 53] and exponent
    [lg - 52], a subnormal one the exponent [-1074].  Overflow to infinity
    is not modelled: the quotients below are of array lengths, far from
    [2 ^ 1024]. *)
Definition round_double (q : Q) : Q :=
  let q := Qred q in
  let a := Z.abs (Qnum q) in
  let d := Zpos (Qden q) in
  if a =? 0 then 0%Q else
  let k := Z.log2 a - Z.log2 d in
  let lg := if (if 0 <=? k then d * 2 ^ k <=? a else d <=? a * 2 ^ (- k))
            then k else k - 1 in
  let e := Z.max (lg - 52) (-1074) in
  let '(num, den) := if 0 <=? e then (a, d * 2 ^ e) else (a * 2 ^ (- e), d) in
  let m0 := num / den in
  let r2 := 2 * (num mod den) in
  let m := if r2 <? den then m0
           else if den <? r2 then m0 + 1
           else if Z.even m0 then m0 else m0 + 1 in
  let v := if 0 <=? e then inject_Z (m * 2 ^ e) else Qmake m (Z.to_pos (2 ^ (- e))) in
  if Qnum q <? 0 then Qopp v else v.

(** [x / y] and [x * y] on doubles: the exact result, rounded. *)
Definition js_div (x y : Q) : Q := round_double (x / y).
Definition js_mul (x y : Q) : Q := round_double (x * y).

(** The progress-bar width [(stats.completed / stats.total) * 100] (0 when
    total = 0); the counts are array lengths, exact as doubles. *)
Definition completion_bar (s : Stats) : Q :=
  if 0 <? st_total s
  then js_mul (js_div (inject_Z (st_completed s)) (inject_Z (st_total s))) 100
  else 0.

(** The "Completion Rate" text:
    [stats.total > 0 ? Math.round((stats.completed / stats.total) * 100) : 0]. *)
Definition completion_rate (s : Stats) : Z :=
  if 0 <? st_total s
  then math_round (js_mul (js_div (inject_Z (st_completed s)) (inject_Z (st_total s))) 100)
  else 0.

(* ------------------------------------------------------------------ *)
(** ** JSON values, [JSON.stringify] and [JSON.parse] *)

(** A number is held as the exact decimal [m * 10^e] of its literal, with
    [e = 0] when its value is an integer. *)
Inductive json :=
| JNull
| JBool (b : bool)
| JNum (m e : Z)
| JStr (s : jstr)
| JArr (l : list json)
| JObj (fs : list (jstr * json)).

(** Number of decimal digits of [n >= 0] (one for 0). *)
Fixpoint ndig (fuel : nat) (n : Z) : nat :=
  match fuel with
  | O => 1%nat
  | S f => if n <? 10 then 1%nat else S (ndig f (n / 10))
  end.

Definition ndigits (n : Z) : nat := ndig (S (Z.to_nat (Z.log2 n))) n.

(** Decimal notation of an integer. *)
Definition dec (z : Z) : jstr :=
  (if z <? 0 then [45] else []) ++ fixdigits (ndigits (Z.abs z)) (Z.abs z).

Definition hexdig (d : Z) : Z := if d <? 10 then 48 + d else 87 + d.

(** [\uXXXX] with lowercase hex digits. *)
Definition hex_escape (c : Z) : jstr :=
  [92; 117; hexdig (c / 4096); hexdig ((c / 256) mod 16);
   hexdig ((c / 16) mod 16); hexdig (c mod 16)].

(** QuoteJSONString on one code unit that is not a surrogate. *)
Definition escape_unit (c : Z) : jstr :=
  if c =? 8 then [92; 98] else if c =? 9 then [92; 116]
  else if c =? 10 then [92; 110] else if c =? 12 then [92; 102]
  else if c =? 13 then [92; 114] else if c =? 34 then [92; 34]
  else if c =? 92 then [92; 92] else if c <? 32 then hex_escape c
  else [c].

Definition is_high (c : Z) : bool := (55296 <=? c) && (c <=? 56319).
Definition is_low (c : Z) : bool := (56320 <=? c) && (c <=? 57343).

(** QuoteJSONString without the surrounding quotes: surrogate pairs are
    kept, lone surrogates escaped. *)
Fixpoint quote_body (s : jstr) : jstr :=
  match s with
  | [] => []
  | c :: s' =>
      if is_high c then
        match s' with
        | c2 :: s'' => if is_low c2 then c :: c2 :: quote_body s''
                       else hex_escape c ++ quote_body s'
        | [] => hex_escape c
        end
      else if is_low c then hex_escape c ++ quote_body s'
      else escape_unit c ++ quote_body s'
  end.

Definition quote (s : jstr) : jstr := 34 :: quote_body s ++ [34].

(** [a] without its trailing zeros, and how many there were. *)
Fixpoint strip_zeros (fuel : nat) (a : Z) (j : nat) : Z * nat :=
  match fuel with
  | O => (a, j)
  | S f => if (a mod 10 =? 0) && negb (a =? 0) then strip_zeros f (a / 10) (S j)
           else (a, j)
  end.

(** [Number::toString] on an integer [m]: decimal notation below [10^21];
    from there the exponent form [d.ddde+n] with the fewest digits
    ([1e+21], [1.5e+22]). *)
Definition num_print (m : Z) : jstr :=
  let a := Z.abs m in
  if a <? 10 ^ 21 then dec m
  else
    let '(sd, j) := strip_zeros (ndigits a) a O in
    let k := ndigits sd in
    (if m <? 0 then [45] else [])
    ++ match fixdigits k sd with
       | d :: r => d :: match r with [] => [] | _ => 46 :: r end
       | [] => []
       end
    ++ [101; 43] ++ dec (Z.of_nat (k + j) - 1).

(** [JSON.stringify] of a value without [undefined] parts.  An integer is
    printed by [Number::toString]; a number with a non-zero exponent [e] is
    printed as its mantissa, [e] and the exponent (the application only
    stores integers). *)
Fixpoint json_print (v : json) : jstr :=
  match v with
  | JNull => u "null"
  | JBool true => u "true"
  | JBool false => u "false"
  | JNum m e => if e =? 0 then num_print m else dec m ++ 101 :: dec e
  | JStr s => quote s
  | JArr l =>
      91 :: (fix go (l : list json) : jstr :=
               match l with
               | [] => []
               | x :: l' =>
                   json_print x ++ match l' with [] => [] | _ => 44 :: go l' end
               end) l ++ [93]
  | JObj fs =>
      123 :: (fix go (fs : list (jstr * json)) : jstr :=
                match fs with
                | [] => []
                | (k, x) :: fs' =>
                    quote k ++ 58 :: json_print x
                    ++ match fs' with [] => [] | _ => 44 :: go fs' end
                end) fs ++ [125]
  end.

Definition is_ws (c : Z) : bool := (c =? 32) || (c =? 9) || (c =? 10) || (c =? 13).

Fixpoint skip_ws (s : jstr) : jstr :=
  match s with
  | c :: s' => if is_ws c then skip_ws s' else s
  | [] => []
  end.

Definition hexval (c : Z) : option Z :=
  if is_digit c then Some (c - 48)
  else if (97 <=? c) && (c <=? 102) then Some (c - 87)
  else if (65 <=? c) && (c <=? 70) then Some (c - 55)
  else None.

Definition hex4 (a b c d : Z) : option Z :=
  do x <- hexval a; do y <- hexval b; do z <- hexval c; do w <- hexval d;
  Some (x * 4096 + y * 256 + z * 16 + w).

Definition simple_escape (e : Z) : option Z :=
  if e =? 34 then Some 34 else if e =? 92 then Some 92
  else if e =? 47 then Some 47 else if e =? 98 then Some 8
  else if e =? 102 then Some 12 else if e =? 110 then Some 10
  else if e =? 114 then Some 13 else if e =? 116 then Some 9
  else None.

(** Body of a string literal after the opening quote, up to and
    including the closing quote. *)
Fixpoint pstr (s : jstr) : option (jstr * jstr) :=
  match s with
  | [] => None
  | c :: s' =>
      if c =? 34 then Some ([], s')
      else if c =? 92 then
        match s' with
        | e :: s'' =>
            if e =? 117 then
              match s'' with
              | h1 :: h2 :: h3 :: h4 :: s3 =>
                  do v <- hex4 h1 h2 h3 h4;
                  do p <- pstr s3; Some (v :: fst p, snd p)
              | _ => None
              end
            else
              do v <- simple_escape e;
              do p <- pstr s''; Some (v :: fst p, snd p)
        | [] => None
        end
      else if c <? 32 then None
      else do p <- pstr s'; Some (c :: fst p, snd p)
  end.

(** A number literal: [-? (0 | [1-9][0-9]* ) (. [0-9]+)? ([eE] [+-]? [0-9]+)?];
    one whose value is an integer is held as that integer. *)
Definition pnum (s : jstr) : option (json * jstr) :=
  let '(neg, s1) := match s with
                    | c :: r => if c =? 45 then (true, r) else (false, s)
                    | [] => (false, s)
                    end in
  let '(ids, s2) := span_digits s1 in
  match ids with
  | [] => None
  | d :: ds =>
      if (d =? 48) && negb (is_empty ds) then None
      else
        do q <- match s2 with
                | c :: r => if c =? 46 then
                              match span_digits r with
                              | ([], _) => None
                              | (fds, r') => Some (fds, r')
                              end
                            else Some ([], s2)
                | [] => Some ([], s2)
                end;
        let '(fds, s3) := q in
        do x <- match s3 with
                | c :: r =>
                    if (c =? 101) || (c =? 69) then
                      let '(sg, r1) := match r with
                                       | c2 :: r2 => if c2 =? 43 then (1, r2)
                                                     else if c2 =? 45 then (-1, r2)
                                                     else (1, r)
                                       | [] => (1, r)
                                       end in
                      match span_digits r1 with
                      | ([], _) => None
                      | (eds, r') => Some (sg * digits_value eds, r')
                      end
                    else Some (0, s3)
                | [] => Some (0, s3)
                end;
        let '(ex, s4) := x in
        let mag := digits_value (ids ++ fds) in
        let z := if neg then - mag else mag in
        let x := ex - Z.of_nat (length fds) in
        Some (if 0 <=? x then JNum (z * 10 ^ x) 0 else JNum z x, s4)
  end.

Definition jstr_eqb (a b : jstr) : bool :=
  if list_eq_dec Z.eq_dec a b then true else false.

Fixpoint strip_prefix (p s : jstr) : option jstr :=
  match p with
  | [] => Some s
  | c :: p' => match s with
               | c' :: s' => if c =? c' then strip_prefix p' s' else None
               | [] => None
               end
  end.

(** CreateDataProperty on an object built by [JSON.parse]: a repeated key
    keeps its first position and takes the last value. *)
Fixpoint obj_set {V} (fs : list (jstr * V)) (k : jstr) (v : V) : list (jstr * V) :=
  match fs with
  | [] => [(k, v)]
  | (k', v') :: fs' => if jstr_eqb k k' then (k, v) :: fs'
                       else (k', v') :: obj_set fs' k v
  end.

Definition build_obj (fs : list (jstr * json)) : list (jstr * json) :=
  fold_left (fun acc kv => obj_set acc (fst kv) (snd kv)) fs [].

(** Recursive descent; [fuel] bounds the nesting and the number of
    elements. *)
Fixpoint pval (fuel : nat) (s : jstr) {struct fuel} : option (json * jstr) :=
  match fuel with
  | O => None
  | S f =>
      match skip_ws s with
      | [] => None
      | c :: r =>
          if c =? 91 then
            match skip_ws r with
            | c2 :: r2 => if c2 =? 93 then Some (JArr [], r2)
                          else do p <- parr f r; Some (JArr (fst p), snd p)
            | [] => None
            end
          else if c =? 123 then
            match skip_ws r with
            | c2 :: r2 => if c2 =? 125 then Some (JObj [], r2)
                          else do p <- pobj f r; Some (JObj (build_obj (fst p)), snd p)
            | [] => None
            end
          else if c =? 34 then do p <- pstr r; Some (JStr (fst p), snd p)
          else if c =? 116 then do r' <- strip_prefix (u "rue") r; Some (JBool true, r')
          else if c =? 102 then do r' <- strip_prefix (u "alse") r; Some (JBool false, r')
          else if c =? 110 then do r' <- strip_prefix (u "ull") r; Some (JNull, r')
          else pnum (c :: r)
      end
  end
with parr (fuel : nat) (s : jstr) {struct fuel} : option (list json * jstr) :=
  match fuel with
  | O => None
  | S f =>
      do p <- pval f s;
      match skip_ws (snd p) with
      | c :: r => if c =? 44 then do q <- parr f r; Some (fst p :: fst q, snd q)
                  else if c =? 93 then Some ([fst p], r) else None
      | [] => None
      end
  end
with pobj (fuel : nat) (s : jstr) {struct fuel}
    : option (list (jstr * json) * jstr) :=
  match fuel with
  | O => None
  | S f =>
      match skip_ws s with
      | c :: r =>
          if c =? 34 then
            do k <- pstr r;
            do r2 <- expect 58 (skip_ws (snd k));
            do p <- pval f r2;
            match skip_ws (snd p) with
            | c2 :: r3 =>
                if c2 =? 44 then do q <- pobj f r3; Some ((fst k, fst p) :: fst q, snd q)
                else if c2 =? 125 then Some ([(fst k, fst p)], r3) else None
            | [] => None
            end
          else None
      | [] => None
      end
  end.

(** [JSON.parse]; [None] is a thrown [SyntaxError]. *)
Definition json_parse (s : jstr) : option json :=
  do p <- pval (S (length s)) s;
  if is_empty (skip_ws (snd p)) then Some (fst p) else None.

(* ------------------------------------------------------------------ *)
(** ** Persistence: [localStorage.setItem("todos", JSON.stringify(todos))] *)

Definition prio_str (p : prio) : jstr :=
  match p with Low => u "low" | Medium => u "medium" | High => u "high" end.

(** The JSON form of a task: [undefined] fields are left out, the [Date]
    goes through [toJSON], i.e. [toISOString]. *)
Definition todo_json (t : Todo) : json :=
  JObj ([(u "id", JNum (id t) 0); (u "text", JStr (text t));
         (u "completed", JBool (completed t));
         (u "priority", JStr (prio_str (priority t)));
         (u "category", JStr (category t))]
        ++ match dueDate t with Some d => [(u "dueDate", JStr d)] | None => [] end
        ++ [(u "createdAt", JStr (toISOString (createdAt t)))]
        ++ match notes t with Some n => [(u "notes", JStr n)] | None => [] end).

Definition persist (todos : list Todo) : jstr :=
  json_print (JArr (map todo_json todos)).

(* ------------------------------------------------------------------ *)
(** ** Hydration: the mount effect

<<
const savedTodos = localStorage.getItem("todos");
if (savedTodos) {
  const parsedTodos = JSON.parse(savedTodos).map((todo: any) => ({
    ...todo,
    createdAt: new Date(todo.createdAt),
  }));
  setTodos(parsedTodos);
}
>> *)

(** A property value of a hydrated object: a JSON value, or the [Date]
    built by [new Date(arg)] from the argument [arg] ([None] is
    [undefined]). *)
Inductive jsval :=
| JVal (v : json)
| JDate (arg : option json).

Definition jsobj := list (jstr * jsval).

Inductive js_error := SyntaxError | TypeError.

Inductive hydration :=
| Hydrated (todos : list jsobj)
| Thrown (e : js_error).

Fixpoint index_keys {X} (i : Z) (l : list X) : list (jstr * X) :=
  match l with
  | [] => []
  | x :: l' => (dec i, x) :: index_keys (i + 1) l'
  end.

(** The own enumerable properties copied by [...todo], in the order of the
    parsed object's fields. *)
Definition spread (v : json) : jsobj :=
  match v with
  | JObj fs => map (fun kv => (fst kv, JVal (snd kv))) fs
  | JArr l => map (fun kv => (fst kv, JVal (snd kv))) (index_keys 0 l)
  | JStr s => map (fun kv => (fst kv, JVal (JStr [snd kv]))) (index_keys 0 s)
  | _ => []
  end.

Fixpoint lookup {V} (k : jstr) (fs : list (jstr * V)) : option V :=
  match fs with
  | [] => None
  | (k', v) :: fs' => if jstr_eqb k k' then Some v else lookup k fs'
  end.

(** [todo.createdAt] on a parsed value: only objects have the property;
    on arrays, strings, numbers and booleans it is [undefined]. *)
Definition get_createdAt (v : json) : option json :=
  match v with
  | JObj fs => lookup (u "createdAt") fs
  | _ => None
  end.

(** Whether [ToPrimitive] throws a [TypeError] on a parsed value, as
    [new Date(value)] calls it.  Strings, numbers, booleans and [null] are
    primitive already.  A parsed object has [Object.prototype] as its
    prototype, and its own properties are never callable: [valueOf] (own or
    inherited) gives no primitive, so the conversion rests on [toString],
    which fails exactly when the object has an own [toString] property (the
    inherited one gives ["[object Object]"]).  An array is converted by
    [Array.prototype.join], which converts each element that is not [null]
    with [ToString], so it throws when one of its elements does. *)
Fixpoint to_primitive_throws (v : json) : bool :=
  match v with
  | JObj fs => match lookup (u "toString") fs with Some _ => true | None => false end
  | JArr l => existsb to_primitive_throws l
  | _ => false
  end.

(** [new Date(todo.createdAt)] throws. *)
Definition createdAt_throws (v : json) : bool :=
  match get_createdAt v with
  | Some a => to_primitive_throws a
  | None => false
  end.

(** The [map] callback; [None] is the [TypeError] of reading
    [null.createdAt], or the one thrown by [new Date(todo.createdAt)]. *)
Definition hydrate_item (v : json) : option jsobj :=
  match v with
  | JNull => None
  | _ => if createdAt_throws v then None
         else Some (obj_set (spread v) (u "createdAt") (JDate (get_createdAt v)))
  end.

Fixpoint map_opt {X Y} (f : X -> option Y) (l : list X) : option (list Y) :=
  match l with
  | [] => Some []
  | x :: l' => do y <- f x; do ys <- map_opt f l'; Some (y :: ys)
  end.

(** The canonical list after the mount effect, from the stored item
    ([None] when [getItem] returns [null]).  An empty string is falsy and
    leaves the initial empty list.  [.map] exists only on arrays: on any
    other parsed value the call throws a [TypeError]. *)
Definition hydrate (saved : option jstr) : hydration :=
  match saved with
  | None => Hydrated []
  | Some [] => Hydrated []
  | Some s =>
      match json_parse s with
      | None => Thrown SyntaxError
      | Some (JArr l) =>
          match map_opt hydrate_item l with
          | Some os => Hydrated os
          | None => Thrown TypeError
          end
      | Some _ => Thrown TypeError
      end
  end.

(** A sequence of [addTodo] calls: the form state and clock readings of
    each call, applied in order to the canonical list. *)
Record AddCall := mkAddCall {
  a_input : jstr;
  a_prio : prio;
  a_selectedCategory : jstr;
  a_newCategory : jstr;
  a_dueDate : jstr;
  a_notes : jstr;
  a_now_id : Z;
  a_now_created : Z
}.

Definition apply_add (todos : list Todo) (c : AddCall) : list Todo :=
  addTodo (a_input c) (a_prio c) (a_selectedCategory c) (a_newCategory c)
    (a_dueDate c) (a_notes c) (a_now_id c) (a_now_created c) todos.

Definition run_adds (cs : list AddCall) (todos : list Todo) : list Todo :=
  fold_left apply_add cs todos.


(* ------------------------------------------------------------------ *)
(** ** Round trip of the stored list: vocabulary *)

(** A JavaScript string is a sequence of UTF-16 code units. *)
Definition units_ok (s : jstr) : Prop := Forall (fun c => 0 <= c < 65536) s.

(** The same, as a boolean test. *)
Definition units_okb (s : jstr) : bool :=
  forallb (fun c => (0 <=? c) && (c <? 65536)) s.

(** What may follow a value printed inside an array or an object: a
    separator, a closing bracket, or the end of the text. *)
Definition delim (r : jstr) : Prop :=
  match r with [] => True | c :: _ => c = 44 \/ c = 93 \/ c = 125 end.

(** The values a stored task holds in its fields: [null], booleans,
    integers and strings. *)
Definition flat (v : json) : Prop :=
  match v with
  | JNull | JBool _ => True
  | JNum _ e => e = 0
  | JStr s => units_ok s
  | _ => False
  end.

(** The elements of an array as [json_print] writes them, without the
    brackets. *)
Fixpoint print_elems (l : list json) : jstr :=
  match l with
  | [] => []
  | x :: l' => json_print x ++ match l' with [] => [] | _ => 44 :: print_elems l' end
  end.

(** The members of an object as [json_print] writes them, without the
    braces. *)
Fixpoint print_fields (fs : list (jstr * json)) : jstr :=
  match fs with
  | [] => []
  | (k, x) :: fs' =>
      quote k ++ 58 :: json_print x
      ++ match fs' with [] => [] | _ => 44 :: print_fields fs' end
  end.

(** A task as the application can hold it: its strings are sequences of
    code units and [createdAt] is the time value of a valid [Date]. *)
Definition todo_wf (t : Todo) : Prop :=
  units_ok (text t) /\ units_ok (category t) /\
  (forall d, dueDate t = Some d -> units_ok d) /\
  (forall n, notes t = Some n -> units_ok n) /\
  Z.abs (createdAt t) <= 8640000000000000.

(** The hydrated record [o] carries the fields of [t]: [id] to [notes]
    as the JSON values of the stored object, and [createdAt] as the
    [Date] built from a string that [Date.parse] maps to [createdAt t]. *)
Definition restores (o : jsobj) (t : Todo) : Prop :=
  lookup (u "id") o = Some (JVal (JNum (id t) 0)) /\
  lookup (u "text") o = Some (JVal (JStr (text t))) /\
  lookup (u "completed") o = Some (JVal (JBool (completed t))) /\
  lookup (u "priority") o = Some (JVal (JStr (prio_str (priority t)))) /\
  lookup (u "category") o = Some (JVal (JStr (category t))) /\
  lookup (u "dueDate") o = option_map (fun d => JVal (JStr d)) (dueDate t) /\
  lookup (u "notes") o = option_map (fun n => JVal (JStr n)) (notes t) /\
  (exists s, lookup (u "createdAt") o = Some (JDate (Some (JStr s))) /\
             date_parse s = Some (createdAt t)).

(** The record the mount effect builds from the stored form of [t]. *)
Definition hydrated_todo (t : Todo) : jsobj :=
  obj_set (spread (todo_json t)) (u "createdAt") (JDate (get_createdAt (todo_json t))).

(** The civil-calendar facts for one day [doe] of a 400-year era, as
    [civil_from_days] computes them: the year of era and month index are
    in range, the day fits the month, and [days_from_civil] gives back
    [doe]. *)
Definition civil_doe_ok (doe : Z) : bool :=
  let yoe := (doe - doe / 1460 + doe / 36524 - doe / 146096) / 365 in
  let doy := doe - (365 * yoe + yoe / 4 - yoe / 100) in
  let mp := (5 * doy + 2) / 153 in
  let d := doy - (153 * mp + 2) / 5 + 1 in
  let m := if mp <? 10 then mp + 3 else mp - 9 in
  (0 <=? yoe) && (yoe <? 400) && (0 <=? mp) && (mp <? 12)
  && (1 <=? d) && (d <=? days_in_month (if m <=? 2 then yoe + 1 else yoe) m)
  && (yoe * 365 + yoe / 4 - yoe / 100 + (153 * mp + 2) / 5 + d - 1 =? doe).

(** [f] holds on the [n] integers from [z]. *)
Fixpoint all_from (n : nat) (z : Z) (f : Z -> bool) : bool :=
  match n with
  | O => true
  | S k => if f z then all_from k (z + 1) f else false
  end.

(* ------------------------------------------------------------------ *)
(** ** The other mutations *)

(** [toggleTodo(id)] *)
Definition toggleTodo (id0 : Z) (todos : list Todo) : list Todo :=
  map (fun t => if id t =? id0 then
                  {| id := id t; text := text t;
                     completed := negb (completed t); priority := priority t;
                     category := category t; dueDate := dueDate t;
                     createdAt := createdAt t; notes := notes t |}
                else t) todos.

(** [deleteTodo(id)] *)
Definition deleteTodo (id0 : Z) (todos : list Todo) : list Todo :=
  filter (fun t => negb (id t =? id0)) todos.

(** [updatePriority(id, newPriority)] *)
Definition updatePriority (id0 : Z) (newPriority : prio) (todos : list Todo)
    : list Todo :=
  map (fun t => if id t =? id0 then
                  {| id := id t; text := text t;
                     completed := completed t; priority := newPriority;
                     category := category t; dueDate := dueDate t;
                     createdAt := createdAt t; notes := notes t |}
                else t) todos.

(** [clearCompleted()] *)
Definition clearCompleted (todos : list Todo) : list Todo :=
  filter (fun t => negb (completed t)) todos.

(** [markAllComplete()] *)
Definition markAllComplete (todos : list Todo) : list Todo :=
  map (fun t => {| id := id t; text := text t;
                   completed := true; priority := priority t;
                   category := category t; dueDate := dueDate t;
                   createdAt := createdAt t; notes := notes t |}) todos.

(** [isOverdue(dueDate)], the clock read as [now]: a missing or empty
    due date is not overdue, and an unparsable one compares as NaN. *)
Definition isOverdue (now : Z) (dueDate0 : option jstr) : bool :=
  match dueDate0 with
  | None => false
  | Some s => if is_empty s then false
              else match date_parse s with
                   | Some x => x <? now
                   | None => false
                   end
  end.

(* ------------------------------------------------------------------ *)
(** ** The category list and the filter stages of [filteredAndSortedTodos] *)

(** [Set.prototype.add] on a set of strings held in insertion order. *)
Definition set_add (s : list jstr) (x : jstr) : list jstr :=
  if existsb (jstr_eqb x) s then s else s ++ [x].

(** [Array.from(new Set(todos.map((todo) => todo.category).filter(Boolean)))] *)
Definition categories (todos : list Todo) : list jstr :=
  fold_left set_add (filter (fun c => negb (is_empty c)) (map category todos)) [].

Inductive FilterType := FAll | FActive | FCompleted.

(** The first [.filter]: the status filter. *)
Definition status_filter (filter0 : FilterType) (t : Todo) : bool :=
  match filter0 with
  | FActive => negb (completed t)
  | FCompleted => completed t
  | FAll => true
  end.

(** [s] begins with [p], code unit by code unit. *)
Fixpoint starts_with (p s : jstr) : bool :=
  match p, s with
  | [], _ => true
  | c :: p', d :: s' => (c =? d) && starts_with p' s'
  | _ :: _, [] => false
  end.

(** [s.includes(q)]: [q] occurs in [s] at some index. *)
Fixpoint includes (s q : jstr) : bool :=
  starts_with q s || match s with [] => false | _ :: s' => includes s' q end.

(** The second [.filter]: the search.  [toLowerCase] is the host's
    [String.prototype.toLowerCase]; [todo.notes && ...] is false for a
    missing or empty note. *)
Definition search_match (toLowerCase : jstr -> jstr) (searchTerm : jstr)
    (t : Todo) : bool :=
  includes (toLowerCase (text t)) (toLowerCase searchTerm)
  || match notes t with
     | Some n => negb (is_empty n)
                 && includes (toLowerCase n) (toLowerCase searchTerm)
     | None => false
     end.

(** The third [.filter]: [!selectedCategory || todo.category === selectedCategory]. *)
Definition category_match (selectedCategory : jstr) (t : Todo) : bool :=
  is_empty selectedCategory || jstr_eqb (category t) selectedCategory.

(** [filteredAndSortedTodos]: the three filters, then the sort. *)
Definition filteredAndSortedTodos (toLowerCase : jstr -> jstr)
    (localeCompare : jstr -> jstr -> Z) (filter0 : FilterType)
    (sort : SortType) (searchTerm selectedCategory : jstr)
    (todos : list Todo) : list Todo :=
  sortTodos localeCompare sort
    (filter (category_match selectedCategory)
       (filter (search_match toLowerCase searchTerm)
          (filter (status_filter filter0) todos))).

(* ------------------------------------------------------------------ *)
(** ** The edit state: [startEdit], [cancelEdit] and [saveEdit] *)

Record EditState := mkEdit {
  editingTodo : option Z;
  editText : jstr
}.

(** [startEdit(todo)] *)
Definition startEdit (t : Todo) : EditState :=
  {| editingTodo := Some (id t); editText := text t |}.

(** [cancelEdit()] *)
Definition cancelEdit : EditState := {| editingTodo := None; editText := [] |}.

(** [saveEdit(id)] with its effect on both the list and the edit state. *)
Definition saveEditState (es : EditState) (id0 : Z) (todos : list Todo)
    : list Todo * EditState :=
  if is_empty (trim (editText es)) then (todos, es)
  else (saveEdit (editText es) id0 todos, cancelEdit).

(* ------------------------------------------------------------------ *)
(** ** Admissible host functions for the examples *)

(** Code-unit order, a consistent [localeCompare]. *)
Fixpoint unit_compare (a b : jstr) : Z :=
  match a, b with
  | [], [] => 0
  | [], _ :: _ => -1
  | _ :: _, [] => 1
  | x :: a', y :: b' =>
      if x <? y then -1 else if y <? x then 1 else unit_compare a' b'
  end.

(** ASCII case folding, one admissible [toLowerCase] on the ASCII range. *)
Definition ascii_lower (s : jstr) : jstr :=
  map (fun c => if (65 <=? c) && (c <=? 90) then c + 32 else c) s.

(* ================================================================== *)
(** * Proofs *)

(** ** List surgery used by [handleDrop] *)

Lemma remove_at_middle {A} (l1 l2 : list A) (x : A) :
  remove_at (length l1) (l1 ++ x :: l2) = l1 ++ l2.
Proof.
  unfold remove_at. induction l1 as [|y l1 IH]; simpl; [reflexivity|].
  f_equal. exact IH.
Qed.

Lemma insert_at_middle {A} (l1 l2 : list A) (x : A) :
  insert_at (length l1) x (l1 ++ l2) = l1 ++ x :: l2.
Proof.
  unfold insert_at. induction l1 as [|y l1 IH]; simpl; [reflexivity|].
  f_equal. exact IH.
Qed.

Lemma remove_insert {A} (n : nat) (x : A) (l : list A) :
  (n <= length l)%nat -> remove_at n (insert_at n x l) = l.
Proof.
  intros Hn. unfold insert_at at 1.
  assert (Hl : length (firstn n l) = n) by (rewrite length_firstn; lia).
  rewrite <- Hl at 1. rewrite remove_at_middle. apply firstn_skipn.
Qed.

Lemma nth_error_insert {A} (n : nat) (x : A) (l : list A) :
  (n <= length l)%nat -> nth_error (insert_at n x l) n = Some x.
Proof.
  intros Hn. unfold insert_at.
  assert (Hl : length (firstn n l) = n) by (rewrite length_firstn; lia).
  rewrite nth_error_app2 by lia. rewrite Hl, Nat.sub_diag. reflexivity.
Qed.

Lemma length_remove_at {A} (n : nat) (l : list A) :
  (n < length l)%nat -> length (remove_at n l) = pred (length l).
Proof.
  intros Hn. unfold remove_at. rewrite length_app, length_firstn, length_skipn.
  lia.
Qed.

Lemma find_index_some {A} (p : A -> bool) (l : list A) (i : nat) :
  find_index p l = Some i ->
  (i < length l)%nat /\ exists x, nth_error l i = Some x /\ p x = true.
Proof.
  revert i. induction l as [|y l IH]; intros i H; simpl in H; [discriminate|].
  destruct (p y) eqn:Hy.
  - injection H as <-. split; [simpl; lia|]. exists y. auto.
  - destruct (find_index p l) as [j|] eqn:Hj; simpl in H; [|discriminate].
    injection H as <-. destruct (IH j eq_refl) as [Hlt Hx].
    split; [simpl; lia|exact Hx].
Qed.

(** Removing an element that does not satisfy [p] shifts the first
    [p]-element down by one exactly when it lay after it. *)
Lemma find_index_remove_at {A} (p : A -> bool) (l : list A) (di ti : nat)
    (y : A) :
  find_index p l = Some ti -> nth_error l di = Some y -> p y = false ->
  find_index p (remove_at di l) =
    Some (if (di <? ti)%nat then pred ti else ti).
Proof.
  revert di ti. induction l as [|x l IH]; intros di ti Hf Hn Hp;
    [destruct di; discriminate|].
  destruct di as [|di]; simpl in Hn.
  - injection Hn as ->. unfold remove_at. simpl.
    simpl in Hf. rewrite Hp in Hf.
    destruct (find_index p l) as [j|]; simpl in Hf; [|discriminate].
    injection Hf as <-. reflexivity.
  - change (remove_at (S di) (x :: l)) with (x :: remove_at di l).
    cbn [find_index]. simpl in Hf. destruct (p x) eqn:Hx.
    + injection Hf as <-. reflexivity.
    + destruct (find_index p l) as [j|] eqn:Hj; simpl in Hf; [|discriminate].
      injection Hf as <-. rewrite (IH di j eq_refl Hn Hp). simpl.
      destruct (di <? j)%nat eqn:E1; destruct (S di <? S j)%nat eqn:E2;
        rewrite ?Nat.ltb_lt, ?Nat.ltb_ge in *; try lia; f_equal; lia.
Qed.

Lemma nth_error_decompose {A} (l : list A) (n : nat) (x : A) :
  nth_error l n = Some x ->
  exists l1 l2, l = l1 ++ x :: l2 /\ length l1 = n.
Proof. apply nth_error_split. Qed.

(** ** Sample lists *)

Definition sample_todo (i : Z) : Todo :=
  {| id := i; text := u "task"; completed := false; priority := Medium;
     category := []; dueDate := None; createdAt := 0; notes := None |}.

Definition sample_1234 : list Todo := map sample_todo [1; 2; 3; 4].

(** ** C2: the worked [reorder] example *)

(** C2 (as stated, refuted): [reorder 3 1] on ids [1,2,3,4] does not give
    [2,3,1,4]. *)
Lemma reorder_example_counterexample :
  map id (reorder 3 1 sample_1234) <> [2; 3; 1; 4].
Proof. vm_compute. discriminate. Qed.

Lemma map_id_1234 (l : list Todo) :
  map id l = [1; 2; 3; 4] ->
  exists a b c d, l = [a; b; c; d] /\
    id a = 1 /\ id b = 2 /\ id c = 3 /\ id d = 4.
Proof.
  intros H.
  destruct l as [|a [|b [|c [|d [|e l]]]]]; simpl in H; try discriminate.
  injection H as Ha Hb Hc Hd. exists a, b, c, d. auto.
Qed.

(** C2 (amended): on any canonical list whose ids are [1,2,3,4] in order,
    [reorder(draggedId=3, targetId=1)] yields the ids [3,1,2,4]: task 3
    takes task 1's index 0 and the others keep their order. *)
Theorem reorder_example (l : list Todo) :
  map id l = [1; 2; 3; 4] -> map id (reorder 3 1 l) = [3; 1; 2; 4].
Proof.
  intros H. destruct (map_id_1234 l H) as (a & b & c & d & -> & Ha & Hb & Hc & Hd).
  unfold reorder, handleDrop. simpl. unfold has_id.
  rewrite Ha, Hb, Hc, Hd. simpl.
  unfold insert_at, remove_at. simpl. rewrite Ha, Hb, Hc, Hd. reflexivity.
Qed.

Lemma reorder_example_witness :
  map id sample_1234 = [1; 2; 3; 4] /\
  map id (reorder 3 1 sample_1234) = [3; 1; 2; 4].
Proof.
  split; [reflexivity|]. apply (reorder_example sample_1234). reflexivity.
Defined.

(** ** C3: general behaviour of [reorder] *)

Lemma insert_remove_same {A} (l : list A) (n : nat) (x : A) :
  nth_error l n = Some x -> insert_at n x (remove_at n l) = l.
Proof.
  intros H. destruct (nth_error_decompose l n x H) as (l1 & l2 & -> & <-).
  rewrite remove_at_middle, insert_at_middle. reflexivity.
Qed.

(** C3: [reorder(draggedId, targetId)] is the identity when either id is
    absent or both are equal; otherwise the dragged task is removed and
    reinserted at the target's index before removal (dragged before target)
    or the target's index after removal (dragged after target), and
    removing it again from the result gives the other tasks in their
    original order. *)
Theorem reorder_spec (d t : Z) (l : list Todo) :
  ((find_index (has_id d) l = None \/ find_index (has_id t) l = None \/ d = t) ->
     reorder d t l = l) /\
  (forall di ti,
     find_index (has_id d) l = Some di ->
     find_index (has_id t) l = Some ti -> d <> t ->
     exists x ti',
       nth_error l di = Some x /\ id x = d /\
       find_index (has_id t) (remove_at di l) = Some ti' /\
       ti' = (if (di <? ti)%nat then pred ti else ti) /\
       nth_error (reorder d t l) (if (di <? ti)%nat then ti else ti') = Some x /\
       remove_at (if (di <? ti)%nat then ti else ti') (reorder d t l)
         = remove_at di l).
Proof.
  split.
  - intros H. unfold reorder, handleDrop.
    destruct H as [H|[H|<-]].
    + rewrite H. reflexivity.
    + rewrite H. destruct (find_index (has_id d) l); reflexivity.
    + destruct (find_index (has_id d) l) as [di|] eqn:Hd; [|reflexivity].
      destruct (find_index_some _ _ _ Hd) as (_ & x & Hx & _).
      rewrite Hx. apply insert_remove_same. exact Hx.
  - intros di ti Hd Ht Hne.
    destruct (find_index_some _ _ _ Hd) as (Hdi & x & Hx & Hpx).
    destruct (find_index_some _ _ _ Ht) as (Hti & y & Hy & Hpy).
    assert (Hidx : id x = d) by (unfold has_id in Hpx; lia).
    assert (Hqx : has_id t x = false)
      by (unfold has_id; apply Z.eqb_neq; congruence).
    pose proof (find_index_remove_at _ _ _ _ _ Ht Hx Hqx) as Hrem.
    assert (Hneq : di <> ti).
    { intros <-. rewrite Hx in Hy. injection Hy as <-. congruence. }
    assert (Hfin : (if (di <? ti)%nat then ti
                    else if (di <? ti)%nat then pred ti else ti) = ti)
      by (destruct (di <? ti)%nat; reflexivity).
    exists x, (if (di <? ti)%nat then pred ti else ti).
    split; [exact Hx|]. split; [exact Hidx|]. split; [exact Hrem|].
    split; [reflexivity|].
    rewrite Hfin. unfold reorder, handleDrop. rewrite Hd, Ht, Hx.
    assert (Hle : (ti <= length (remove_at di l))%nat)
      by (rewrite length_remove_at by exact Hdi; lia).
    split.
    + apply nth_error_insert. exact Hle.
    + apply remove_insert. exact Hle.
Qed.

Lemma reorder_spec_witness :
  exists x ti',
    nth_error sample_1234 2 = Some x /\ id x = 3 /\
    find_index (has_id 1) (remove_at 2 sample_1234) = Some ti' /\
    ti' = (if (2 <? 0)%nat then pred 0 else 0%nat) /\
    nth_error (reorder 3 1 sample_1234) (if (2 <? 0)%nat then 0%nat else ti')
      = Some x /\
    remove_at (if (2 <? 0)%nat then 0%nat else ti') (reorder 3 1 sample_1234)
      = remove_at 2 sample_1234.
Proof.
  apply (proj2 (reorder_spec 3 1 sample_1234) 2%nat 0%nat);
    [reflexivity | reflexivity | discriminate].
Defined.

(** ** C5: [addTodo] *)

(** C5: with an empty trimmed input [addTodo] leaves the canonical list as
    it is; otherwise it prepends exactly one new task carrying the trimmed
    text and [completed = false] in front of the unchanged old list. *)
Theorem addTodo_spec (input : jstr) (pr : prio)
    (sel newc due nts : jstr) (nid ncr : Z) (todos : list Todo) :
  (trim input = [] -> addTodo input pr sel newc due nts nid ncr todos = todos) /\
  (trim input <> [] ->
     exists t, addTodo input pr sel newc due nts nid ncr todos = t :: todos /\
       text t = trim input /\ completed t = false).
Proof.
  unfold addTodo. split.
  - intros H. rewrite H. reflexivity.
  - intros H. destruct (trim input) as [|c s] eqn:E; [congruence|].
    simpl. eexists. split; [reflexivity|]. simpl. auto.
Qed.

Definition blank_input : jstr := u "  ".
Definition milk_input : jstr := u " Buy milk ".

Lemma addTodo_spec_witness :
  (trim blank_input = [] ->
     addTodo blank_input Medium [] [] [] [] 5 5 sample_1234 = sample_1234) /\
  (trim milk_input <> [] ->
     exists t, addTodo milk_input Medium [] [] [] [] 5 5 sample_1234
                 = t :: sample_1234 /\
       text t = trim milk_input /\ completed t = false) /\
  trim blank_input = [] /\ trim milk_input <> [].
Proof.
  split; [exact (proj1 (addTodo_spec blank_input Medium [] [] [] [] 5 5 sample_1234))|].
  split; [exact (proj2 (addTodo_spec milk_input Medium [] [] [] [] 5 5 sample_1234))|].
  split; [reflexivity | vm_compute; discriminate].
Defined.

(** ** C10: [saveEdit] with an unknown id *)

(** C10: saving an edit for an id that no task carries leaves the canonical
    list unchanged. *)
Theorem saveEdit_unknown_id (editText : jstr) (id0 : Z) (todos : list Todo) :
  Forall (fun t => id t <> id0) todos -> saveEdit editText id0 todos = todos.
Proof.
  intros H. unfold saveEdit. destruct (is_empty (trim editText)); [reflexivity|].
  induction H as [|t l Ht _ IH]; [reflexivity|].
  simpl. rewrite IH. apply Z.eqb_neq in Ht. rewrite Ht. reflexivity.
Qed.

Lemma saveEdit_unknown_id_witness :
  Forall (fun t => id t <> 7) sample_1234 /\
  saveEdit milk_input 7 sample_1234 = sample_1234.
Proof.
  assert (H : Forall (fun t => id t <> 7) sample_1234)
    by (repeat constructor; simpl; discriminate).
  split; [exact H|]. exact (saveEdit_unknown_id milk_input 7 sample_1234 H).
Defined.

(** ** C4: sequences of [addTodo] calls *)

Lemma apply_add_nonempty (todos : list Todo) (c : AddCall) :
  trim (a_input c) <> [] ->
  exists t, apply_add todos c = t :: todos /\ id t = a_now_id c.
Proof.
  intros H. unfold apply_add, addTodo.
  destruct (is_empty (trim (a_input c))) eqn:E.
  - destruct (trim (a_input c)); [congruence|discriminate].
  - eexists. split; reflexivity.
Qed.

Lemma run_adds_nonempty (cs : list AddCall) (todos : list Todo) :
  Forall (fun c => trim (a_input c) <> []) cs ->
  length (run_adds cs todos) = (length cs + length todos)%nat /\
  map id (run_adds cs todos) = rev (map a_now_id cs) ++ map id todos.
Proof.
  intros H. revert todos. unfold run_adds.
  induction H as [|c cs Hc _ IH]; intros todos; [split; reflexivity|].
  simpl. destruct (apply_add_nonempty todos c Hc) as (t & -> & Ht).
  destruct (IH (t :: todos)) as [Hl Hm].
  split.
  - rewrite Hl. simpl. lia.
  - rewrite Hm. simpl. rewrite Ht, <- app_assoc. reflexivity.
Qed.

Definition add_call_at (now : Z) : AddCall :=
  {| a_input := milk_input; a_prio := Medium; a_selectedCategory := [];
     a_newCategory := []; a_dueDate := []; a_notes := [];
     a_now_id := now; a_now_created := now |}.

(** C4 (as stated, refuted): two non-blank [addTodo] calls made while
    [Date.now()] reads the same millisecond give two tasks with the same
    id. *)
Lemma run_adds_unique_ids_counterexample :
  Forall (fun c => trim (a_input c) <> [])
    [add_call_at 1700000000000; add_call_at 1700000000000] /\
  ~ NoDup (map id (run_adds [add_call_at 1700000000000;
                             add_call_at 1700000000000] [])).
Proof.
  split.
  - repeat constructor; vm_compute; discriminate.
  - vm_compute. intros H. inversion H as [|x l Hnin _]. apply Hnin. left. reflexivity.
Qed.

(** C4 (amended): after a sequence of [addTodo] calls with non-blank text
    starting from the empty list, the list has one task per call, the ids
    are the [Date.now()] readings of the calls, newest first, and so the ids
    are pairwise distinct exactly when those readings are. *)
Theorem run_adds_ids (cs : list AddCall) :
  Forall (fun c => trim (a_input c) <> []) cs ->
  length (run_adds cs []) = length cs /\
  map id (run_adds cs []) = rev (map a_now_id cs) /\
  (NoDup (map id (run_adds cs [])) <-> NoDup (map a_now_id cs)).
Proof.
  intros H. destruct (run_adds_nonempty cs [] H) as [Hl Hm].
  rewrite app_nil_r in Hm. simpl in Hl. rewrite Nat.add_0_r in Hl.
  split; [exact Hl|]. split; [exact Hm|]. rewrite Hm.
  split; apply Permutation_NoDup;
    [apply Permutation_sym|]; apply Permutation_rev.
Qed.

Lemma run_adds_ids_witness :
  Forall (fun c => trim (a_input c) <> []) [add_call_at 1; add_call_at 2] /\
  length (run_adds [add_call_at 1; add_call_at 2] []) = 2%nat /\
  map id (run_adds [add_call_at 1; add_call_at 2] []) = [2; 1] /\
  (NoDup (map id (run_adds [add_call_at 1; add_call_at 2] [])) <->
   NoDup [1; 2]).
Proof.
  assert (H : Forall (fun c => trim (a_input c) <> [])
                [add_call_at 1; add_call_at 2])
    by (repeat constructor; vm_compute; discriminate).
  split; [exact H|]. exact (run_adds_ids [add_call_at 1; add_call_at 2] H).
Defined.

(** ** [Array.prototype.sort]: permutation, order, stability *)

Section JsSort.
Variable A : Type.
Variable cmp : A -> A -> option Z.
(** The elements on which the comparator is consistent. *)
Variable ok : A -> Prop.

Definition sle (a b : A) : Prop := sort_compare (cmp a b) <= 0.

Hypothesis sle_total :
  forall a b, ok a -> ok b -> ~ sle a b -> sle b a.
Hypothesis sle_trans :
  forall a b c, ok a -> ok b -> ok c -> sle a b -> sle b c -> sle a c.

Lemma insert_sorted_perm (x : A) (l : list A) :
  Permutation (insert_sorted cmp x l) (x :: l).
Proof.
  induction l as [|y l IH]; simpl; [reflexivity|].
  destruct (sort_compare (cmp x y) <=? 0); [reflexivity|].
  rewrite IH. apply perm_swap.
Qed.

Lemma js_sort_perm (l : list A) : Permutation (js_sort cmp l) l.
Proof.
  induction l as [|x l IH]; simpl; [reflexivity|].
  rewrite insert_sorted_perm, IH. reflexivity.
Qed.

Lemma insert_sorted_sorted (x : A) (l : list A) :
  ok x -> Forall ok l -> StronglySorted sle l ->
  StronglySorted sle (insert_sorted cmp x l).
Proof.
  intros Hx. induction l as [|y l IH]; intros Hl Hs; simpl.
  - repeat constructor.
  - inversion Hl as [|? ? Hy Hl']; subst.
    inversion Hs as [|? ? Hs' Hys]; subst.
    destruct (sort_compare (cmp x y) <=? 0) eqn:E.
    + apply Z.leb_le in E. constructor; [exact Hs|]. constructor; [exact E|].
      rewrite Forall_forall in *. intros z Hz.
      apply sle_trans with y; auto.
    + apply Z.leb_gt in E.
      assert (Hyx : sle y x) by (apply sle_total; auto; unfold sle; lia).
      constructor; [apply IH; assumption|].
      apply (Permutation_Forall (Permutation_sym (insert_sorted_perm x l))).
      constructor; assumption.
Qed.

Lemma js_sort_sorted (l : list A) :
  Forall ok l -> StronglySorted sle (js_sort cmp l).
Proof.
  induction l as [|x l IH]; intros Hl; simpl; [constructor|].
  inversion Hl; subst. apply insert_sorted_sorted; auto.
  apply (Permutation_Forall (Permutation_sym (js_sort_perm l))). assumption.
Qed.

(** Stability: a class of elements that the comparator never orders
    strictly keeps its input order. *)
Variable P : A -> bool.
Hypothesis P_tied :
  forall a b, ok a -> ok b -> P a = true -> P b = true -> sle a b.

Lemma insert_sorted_filter (x : A) (l : list A) :
  ok x -> Forall ok l ->
  filter P (insert_sorted cmp x l) = filter P (x :: l).
Proof.
  intros Hx. induction l as [|y l IH]; intros Hl; simpl; [reflexivity|].
  inversion Hl as [|? ? Hy Hl']; subst.
  destruct (sort_compare (cmp x y) <=? 0) eqn:E; [reflexivity|].
  apply Z.leb_gt in E. simpl. rewrite (IH Hl'). simpl.
  destruct (P x) eqn:Px, (P y) eqn:Py; try reflexivity.
  exfalso. pose proof (P_tied x y Hx Hy Px Py) as H. unfold sle in H. lia.
Qed.

Lemma js_sort_filter (l : list A) :
  Forall ok l -> filter P (js_sort cmp l) = filter P l.
Proof.
  induction l as [|x l IH]; intros Hl; simpl; [reflexivity|].
  inversion Hl; subst.
  rewrite insert_sorted_filter; auto.
  - simpl. rewrite IH by assumption. reflexivity.
  - apply (Permutation_Forall (Permutation_sym (js_sort_perm l))). assumption.
Qed.
End JsSort.

Lemma ss_weaken {A} (R R' : A -> A -> Prop) (l : list A) :
  (forall a b, R a b -> R' a b) -> StronglySorted R l -> StronglySorted R' l.
Proof.
  intros H Hs. induction Hs as [|a l Hs IH Hf]; constructor; [exact IH|].
  eapply Forall_impl; [|exact Hf]. intros b. apply H.
Qed.

(** ** C7: sorting by priority *)

Definition prio_eqb (p q : prio) : bool :=
  match p, q with
  | Low, Low | Medium, Medium | High, High => true
  | _, _ => false
  end.

Lemma prio_eqb_rank (p q : prio) :
  prio_eqb p q = true -> priorityOrder p = priorityOrder q.
Proof. destruct p, q; simpl; congruence. Qed.

Definition task_with (i : Z) (p : prio) : Todo :=
  {| id := i; text := u "task"; completed := false; priority := p;
     category := []; dueDate := None; createdAt := 0; notes := None |}.

(** C7: sorting by priority returns a permutation of the input, ordered by
    descending rank (high 3, medium 2, low 1), in which each rank class keeps
    its input order; so [A(high), B(medium), C(high)] sorts to [A, C, B]. *)
Theorem sort_priority_spec (localeCompare : jstr -> jstr -> Z) :
  (forall l : list Todo,
     Permutation (sortTodos localeCompare SPriority l) l /\
     StronglySorted (fun a b : Todo =>
                       priorityOrder (priority b) <= priorityOrder (priority a))
       (sortTodos localeCompare SPriority l) /\
     (forall p : prio, filter (fun t : Todo => prio_eqb (priority t) p)
                  (sortTodos localeCompare SPriority l)
                = filter (fun t : Todo => prio_eqb (priority t) p) l)) /\
  (forall ta tb tc : Todo,
     priority ta = High -> priority tb = Medium -> priority tc = High ->
     sortTodos localeCompare SPriority [ta; tb; tc] = [ta; tc; tb]).
Proof.
  set (cmp := compare_todos localeCompare SPriority).
  assert (Hsle : forall a b, sle Todo cmp a b <->
                   priorityOrder (priority b) <= priorityOrder (priority a))
    by (intros a b; unfold sle, cmp; simpl; lia).
  split.
  - intros l. split; [apply js_sort_perm|]. split.
    + assert (H : StronglySorted (sle Todo cmp) (js_sort cmp l)).
      { apply js_sort_sorted with (ok := fun _ => True).
        - intros a b _ _ Hn. rewrite Hsle in *. lia.
        - intros a b c _ _ _ H1 H2. rewrite Hsle in *. lia.
        - apply Forall_forall. auto. }
      eapply ss_weaken; [|exact H].
      intros a b Hab. apply Hsle. exact Hab.
    + intros p. apply js_sort_filter with (ok := fun _ => True).
      * intros a b _ _ Ha Hb. apply Hsle.
        destruct (priority a), (priority b), p; simpl in *;
          try discriminate; lia.
      * apply Forall_forall. auto.
  - intros [] [] [] Ha Hb Hc. simpl in Ha, Hb, Hc. subst.
    reflexivity.
Qed.

Lemma sort_priority_spec_witness :
  priority (task_with 1 High) = High /\ priority (task_with 2 Medium) = Medium /\
  priority (task_with 3 High) = High /\
  sortTodos (fun _ _ => 0) SPriority
    [task_with 1 High; task_with 2 Medium; task_with 3 High]
  = [task_with 1 High; task_with 3 High; task_with 2 Medium].
Proof.
  split; [reflexivity|]. split; [reflexivity|]. split; [reflexivity|].
  apply (proj2 (sort_priority_spec (fun _ _ => 0))); reflexivity.
Defined.

(** ** C8: sorting by due date *)

(** The order the [dueDate] sort is meant to produce between two tasks. *)
Definition due_order (a b : Todo) : Prop :=
  match has_due a, has_due b with
  | false, true => False
  | true, true => forall x y, due_time a = Some x -> due_time b = Some y -> x <= y
  | _, _ => True
  end.

Definition due_ok (t : Todo) : Prop := has_due t = true -> due_time t <> None.

Ltac due_cases a :=
  let Ha := fresh "Hd" in
  let Ta := fresh "Tm" in
  destruct (has_due a) eqn:Ha; [destruct (due_time a) eqn:Ta|].

Lemma due_sle_iff (lc : jstr -> jstr -> Z) (a b : Todo) :
  due_ok a -> due_ok b ->
  (sle Todo (compare_todos lc SDueDate) a b <-> due_order a b).
Proof.
  unfold due_ok, sle, due_order, compare_todos. intros Ha Hb.
  due_cases a; due_cases b; simpl;
    try (exfalso; solve [apply Ha; reflexivity | apply Hb; reflexivity]);
    try (split; intros; [exact I | lia]).
  - split.
    + intros H x y Hx Hy. injection Hx as <-. injection Hy as <-. lia.
    + intros H. specialize (H _ _ eq_refl eq_refl). lia.
  - split; [lia | contradiction].
Qed.

(** C8: with every present due date a valid date string, sorting by due
    date returns a permutation of the input in which tasks with a due date
    come in ascending date order, every task without one comes after all
    tasks with one, and the tasks without a due date keep their input
    order. *)
Theorem sort_dueDate_spec (localeCompare : jstr -> jstr -> Z) (l : list Todo) :
  Forall due_ok l ->
  Permutation (sortTodos localeCompare SDueDate l) l /\
  StronglySorted due_order (sortTodos localeCompare SDueDate l) /\
  filter (fun t => negb (has_due t)) (sortTodos localeCompare SDueDate l)
    = filter (fun t => negb (has_due t)) l.
Proof.
  intros Hl. set (cmp := compare_todos localeCompare SDueDate).
  assert (Htot : forall a b, due_ok a -> due_ok b ->
                   ~ sle Todo cmp a b -> sle Todo cmp b a).
  { intros a b Ha Hb. unfold cmp. rewrite !due_sle_iff by assumption.
    unfold due_order, due_ok in *.
    due_cases a; due_cases b; simpl; try tauto;
      try (exfalso; solve [apply Ha; reflexivity | apply Hb; reflexivity]).
    intros H x y Hx Hy. injection Hx as <-. injection Hy as <-.
    destruct (Z.le_gt_cases z0 z) as [Hle|Hgt]; [exact Hle|].
    exfalso. apply H. intros x y Hx Hy.
    injection Hx as <-. injection Hy as <-. lia. }
  assert (Htr : forall a b c, due_ok a -> due_ok b -> due_ok c ->
                  sle Todo cmp a b -> sle Todo cmp b c -> sle Todo cmp a c).
  { intros a b c Ha Hb Hc. unfold cmp. rewrite !due_sle_iff by assumption.
    unfold due_order, due_ok in *.
    due_cases a; due_cases b; due_cases c; simpl; try tauto;
      try (exfalso; solve [apply Ha; reflexivity | apply Hb; reflexivity
                          | apply Hc; reflexivity]).
    intros H1 H2 x y Hx Hy. injection Hx as <-. injection Hy as <-.
    specialize (H1 _ _ eq_refl eq_refl). specialize (H2 _ _ eq_refl eq_refl).
    lia. }
  split; [apply js_sort_perm|]. split.
  - assert (H : StronglySorted (sle Todo cmp) (js_sort cmp l))
      by (apply js_sort_sorted with (ok := due_ok); assumption).
    assert (Hok : Forall due_ok (js_sort cmp l))
      by (apply (Permutation_Forall (Permutation_sym (js_sort_perm _ _ l)));
          exact Hl).
    clear Htot Htr Hl. unfold sortTodos. fold cmp.
    induction H as [|a s Hs IH Hf]; constructor.
    + apply IH. inversion Hok; assumption.
    + inversion Hok as [|? ? Ha Hs']; subst.
      rewrite Forall_forall in *. intros b Hb.
      apply (due_sle_iff localeCompare a b Ha (Hs' b Hb)). apply Hf. exact Hb.
  - apply js_sort_filter with (ok := due_ok); try assumption.
    intros a b _ _ Ha Hb. unfold sle, cmp, compare_todos.
    rewrite Ha, Hb. simpl. lia.
Qed.

Definition task_due (i : Z) (d : option jstr) : Todo :=
  {| id := i; text := u "task"; completed := false; priority := Medium;
     category := []; dueDate := d; createdAt := 0; notes := None |}.

Definition due_sample : list Todo :=
  [task_due 1 (Some (u "2024-01-02")); task_due 2 None;
   task_due 3 (Some (u "2024-01-01")); task_due 4 (Some [])].

Lemma sort_dueDate_spec_witness :
  Forall due_ok due_sample /\
  Permutation (sortTodos (fun _ _ => 0) SDueDate due_sample) due_sample /\
  StronglySorted due_order (sortTodos (fun _ _ => 0) SDueDate due_sample) /\
  filter (fun t => negb (has_due t)) (sortTodos (fun _ _ => 0) SDueDate due_sample)
    = filter (fun t => negb (has_due t)) due_sample.
Proof.
  assert (H : Forall due_ok due_sample)
    by (repeat constructor; unfold due_ok; vm_compute; intros; discriminate).
  split; [exact H|]. exact (sort_dueDate_spec (fun _ _ => 0) due_sample H).
Defined.

(** ** C9: statistics *)

Lemma length_filter_negb {A} (f : A -> bool) (l : list A) :
  (length (filter (fun x => negb (f x)) l) + length (filter f l) = length l)%nat.
Proof.
  induction l as [|x l IH]; simpl; [reflexivity|].
  destruct (f x); simpl; lia.
Qed.

Definition task_done (i : Z) (c : bool) : Todo :=
  {| id := i; text := u "task"; completed := c; priority := Medium;
     category := []; dueDate := None; createdAt := 0; notes := None |}.

Definition one_of_three : list Todo :=
  [task_done 1 true; task_done 2 false; task_done 3 false].

(** [n] tasks of which the first [c] are completed. *)
Definition done_of (c n : nat) : list Todo :=
  map (fun i => task_done (Z.of_nat i) (Nat.ltb i c)) (seq 0 n).

Lemma round_double_Qeq (p q : Q) : (p == q)%Q -> round_double p = round_double q.
Proof. intros H. unfold round_double. rewrite (Qred_complete p q H). reflexivity. Qed.

(** C9 (as stated, refuted): with one of three tasks completed the
    completion rate shown is 33, not the percentage 100/3; and with 23 of
    40 the double [(23 / 40) * 100] is just below 57.5, so the rate shown
    is 57 where the exact percentage rounds to 58. *)
Lemma completion_rate_counterexample :
  completion_rate (stats 0 one_of_three) = 33 /\
  ~ (inject_Z (completion_rate (stats 0 one_of_three)) ==
     inject_Z (st_completed (stats 0 one_of_three))
       / inject_Z (st_total (stats 0 one_of_three)) * 100)%Q /\
  completion_rate (stats 0 (done_of 23 40)) = 57 /\
  math_round (inject_Z (st_completed (stats 0 (done_of 23 40)))
              / inject_Z (st_total (stats 0 (done_of 23 40))) * 100) = 58.
Proof.
  split; [vm_compute; reflexivity|]. split.
  - unfold Qeq. vm_compute. discriminate.
  - split; vm_compute; reflexivity.
Qed.

(** C9 (amended): the statistics are computed from the canonical list:
    total is its length, completed counts the completed tasks, active is
    total minus completed, overdue counts the tasks with a due date whose
    time is strictly before now and that are not completed; the progress
    bar is the double [(completed / total) * 100], each operation rounded
    to the nearest double, and the "Completion Rate" shown is that double
    rounded to the nearest integer (halves up), both 0 when total = 0. *)
Theorem stats_spec (now : Z) (l : list Todo) :
  st_total (stats now l) = Z.of_nat (length l) /\
  st_completed (stats now l) = Z.of_nat (length (filter (fun t => completed t) l)) /\
  st_active (stats now l) = st_total (stats now l) - st_completed (stats now l) /\
  st_overdue (stats now l) =
    Z.of_nat (length (filter (fun t =>
      has_due t && due_before now t && negb (completed t)) l)) /\
  (st_total (stats now l) = 0 ->
     completion_bar (stats now l) = 0%Q /\ completion_rate (stats now l) = 0) /\
  (0 < st_total (stats now l) ->
     completion_bar (stats now l) =
       js_mul (js_div (inject_Z (st_completed (stats now l)))
                      (inject_Z (st_total (stats now l)))) 100 /\
     completion_rate (stats now l) = math_round (completion_bar (stats now l))).
Proof.
  pose proof (length_filter_negb (fun t => completed t) l) as H1.
  split; [reflexivity|]. split; [reflexivity|]. split.
  - simpl. lia.
  - split; [reflexivity|]. unfold completion_bar, completion_rate. split.
    + intros H. rewrite H. split; reflexivity.
    + intros H. apply Z.ltb_lt in H. rewrite H. split; reflexivity.
Qed.

Lemma stats_spec_witness :
  0 < st_total (stats 0 (done_of 23 40)) /\
  completion_bar (stats 0 (done_of 23 40)) =
    js_mul (js_div (inject_Z (st_completed (stats 0 (done_of 23 40))))
                   (inject_Z (st_total (stats 0 (done_of 23 40))))) 100 /\
  completion_rate (stats 0 (done_of 23 40))
    = math_round (completion_bar (stats 0 (done_of 23 40))) /\
  completion_rate (stats 0 (done_of 23 40)) = 57.
Proof.
  assert (H : 0 < st_total (stats 0 (done_of 23 40))) by (vm_compute; reflexivity).
  split; [exact H|].
  destruct (proj2 (proj2 (proj2 (proj2 (proj2 (stats_spec 0 (done_of 23 40)))))) H)
    as [H2 H3].
  split; [exact H2|]. split; [exact H3|]. vm_compute. reflexivity.
Defined.

(** ** C1: hydration of malformed or absent state *)

Lemma json_parse_nil : json_parse [] = None.
Proof. reflexivity. Qed.

Lemma map_opt_hydrate_null (l : list json) :
  In JNull l -> map_opt hydrate_item l = None.
Proof.
  induction l as [|v l IH]; simpl; [contradiction|].
  intros [Hv|H]; [subst v; reflexivity|].
  destruct (hydrate_item v); [|reflexivity]. rewrite (IH H). reflexivity.
Qed.

Lemma map_opt_hydrate_throw (l : list json) (v : json) :
  In v l -> createdAt_throws v = true -> map_opt hydrate_item l = None.
Proof.
  intros Hin Ht. induction l as [|w l IH]; simpl in *; [contradiction|].
  destruct Hin as [->|H].
  - unfold hydrate_item. destruct v; try reflexivity; rewrite Ht; reflexivity.
  - destruct (hydrate_item w); [|reflexivity]. rewrite (IH H). reflexivity.
Qed.

Lemma map_opt_hydrate_ok (l : list json) :
  ~ In JNull l -> (forall v, In v l -> createdAt_throws v = false) ->
  map_opt hydrate_item l
    = Some (map (fun v => obj_set (spread v) (u "createdAt") (JDate (get_createdAt v))) l).
Proof.
  induction l as [|v l IH]; simpl; intros Hn Ht; [reflexivity|].
  rewrite IH by (intros; try apply Ht; tauto).
  assert (Hv : createdAt_throws v = false) by (apply Ht; left; reflexivity).
  unfold hydrate_item. destruct v; try (exfalso; tauto); rewrite Hv; reflexivity.
Qed.

(** C1 (as stated, refuted): a stored value that is valid JSON but not an
    array ([{}]) makes hydration throw a [TypeError], and one that is not
    JSON ([x]) a [SyntaxError]; neither yields the empty list. *)
Lemma hydrate_malformed_counterexample :
  hydrate (Some (u "{}")) = Thrown TypeError /\
  hydrate (Some (u "x")) = Thrown SyntaxError.
Proof. split; vm_compute; reflexivity. Qed.

(** C1 (amended): an absent or empty stored value yields the empty list; a
    value that is not valid JSON throws a [SyntaxError]; valid JSON that is
    not an array, an array with a [null] element, or an array with an
    element whose [createdAt] makes [new Date] throw (an object with an own
    [toString], or an array holding one) throws a [TypeError]; any other
    array yields one hydrated record per element: the element's own
    properties with [createdAt] replaced by a [Date]. *)
Theorem hydrate_spec :
  hydrate None = Hydrated [] /\
  hydrate (Some []) = Hydrated [] /\
  (forall s, s <> [] -> json_parse s = None -> hydrate (Some s) = Thrown SyntaxError) /\
  (forall s v, json_parse s = Some v -> (forall l, v <> JArr l) ->
     hydrate (Some s) = Thrown TypeError) /\
  (forall s l, json_parse s = Some (JArr l) -> In JNull l ->
     hydrate (Some s) = Thrown TypeError) /\
  (forall s l v, json_parse s = Some (JArr l) -> In v l -> createdAt_throws v = true ->
     hydrate (Some s) = Thrown TypeError) /\
  (forall s l, json_parse s = Some (JArr l) -> ~ In JNull l ->
     (forall v, In v l -> createdAt_throws v = false) ->
     hydrate (Some s)
       = Hydrated (map (fun v => obj_set (spread v) (u "createdAt")
                                   (JDate (get_createdAt v))) l)).
Proof.
  assert (Hne : forall s v, json_parse s = Some v -> s <> []).
  { intros s v H ->. rewrite json_parse_nil in H. discriminate. }
  split; [reflexivity|]. split; [reflexivity|]. split.
  { intros [|c s] Hs Hp; [congruence|]. simpl. rewrite Hp. reflexivity. }
  split.
  { intros s v Hp Hv. destruct s as [|c s]; [destruct (Hne _ _ Hp eq_refl)|].
    unfold hydrate. rewrite Hp.
    destruct v; try reflexivity. destruct (Hv l eq_refl). }
  split.
  { intros s l Hp Hn. destruct s as [|c s]; [destruct (Hne _ _ Hp eq_refl)|].
    unfold hydrate. rewrite Hp, map_opt_hydrate_null by exact Hn. reflexivity. }
  split.
  { intros s l v Hp Hin Ht. destruct s as [|c s]; [destruct (Hne _ _ Hp eq_refl)|].
    unfold hydrate. rewrite Hp, (map_opt_hydrate_throw l v Hin Ht). reflexivity. }
  { intros s l Hp Hn Ht. destruct s as [|c s]; [destruct (Hne _ _ Hp eq_refl)|].
    unfold hydrate. rewrite Hp, map_opt_hydrate_ok by assumption. reflexivity. }
Qed.

Lemma hydrate_spec_witness :
  json_parse (u "{}") = Some (JObj []) /\
  hydrate (Some (u "{}")) = Thrown TypeError /\
  json_parse (u "[1,null]") = Some (JArr [JNum 1 0; JNull]) /\
  hydrate (Some (u "[1,null]")) = Thrown TypeError /\
  json_parse (u "[{" ++ quote (u "createdAt") ++ u ":{" ++ quote (u "toString") ++ u ":1}}]")
    = Some (JArr [JObj [(u "createdAt", JObj [(u "toString", JNum 1 0)])]]) /\
  hydrate (Some (u "[{" ++ quote (u "createdAt") ++ u ":{" ++ quote (u "toString") ++ u ":1}}]")) = Thrown TypeError /\
  json_parse (u "[1]") = Some (JArr [JNum 1 0]) /\
  hydrate (Some (u "[1]")) = Hydrated [obj_set [] (u "createdAt") (JDate None)].
Proof.
  split; [vm_compute; reflexivity|]. split.
  { apply (proj1 (proj2 (proj2 (proj2 hydrate_spec))) (u "{}") (JObj []));
      [vm_compute; reflexivity | discriminate]. }
  split; [vm_compute; reflexivity|]. split.
  { apply (proj1 (proj2 (proj2 (proj2 (proj2 hydrate_spec))))
             (u "[1,null]") [JNum 1 0; JNull]);
      [vm_compute; reflexivity | right; left; reflexivity]. }
  split; [vm_compute; reflexivity|]. split.
  { apply (proj1 (proj2 (proj2 (proj2 (proj2 (proj2 hydrate_spec)))))
             _ [JObj [(u "createdAt", JObj [(u "toString", JNum 1 0)])]]
             (JObj [(u "createdAt", JObj [(u "toString", JNum 1 0)])]));
      [vm_compute; reflexivity | left; reflexivity | vm_compute; reflexivity]. }
  split; [vm_compute; reflexivity|].
  apply (proj2 (proj2 (proj2 (proj2 (proj2 (proj2 hydrate_spec))))) (u "[1]") [JNum 1 0]).
  - vm_compute; reflexivity.
  - simpl; intros [H|H]; [discriminate | exact H].
  - intros v [<-|[]]. reflexivity.
Defined.

(** ** C6: the persistence round trip *)

(** *** Decimal digits *)

Lemma pow10_succ (k : nat) : 10 ^ Z.of_nat (S k) = 10 ^ Z.of_nat k * 10.
Proof. rewrite Nat2Z.inj_succ, Z.pow_succ_r by lia. lia. Qed.

Lemma pow10_pos (k : nat) : 0 < 10 ^ Z.of_nat k.
Proof. apply Z.pow_pos_nonneg; lia. Qed.

Lemma fixdigits_digits (k : nat) (n : Z) :
  Forall (fun c => is_digit c = true) (fixdigits k n).
Proof.
  induction k as [|k IH]; cbn [fixdigits]; constructor; [|exact IH].
  unfold is_digit. pose proof (Z.mod_pos_bound (n / 10 ^ Z.of_nat k) 10 ltac:(lia)).
  apply andb_true_intro; split; apply Z.leb_le; lia.
Qed.

Lemma mod_pow10_succ (n : Z) (k : nat) :
  0 <= n ->
  n mod 10 ^ Z.of_nat (S k) =
  (n / 10 ^ Z.of_nat k) mod 10 * 10 ^ Z.of_nat k + n mod 10 ^ Z.of_nat k.
Proof.
  intros Hn. rewrite pow10_succ. pose proof (pow10_pos k).
  rewrite !Z.mod_eq by lia. rewrite <- Z.div_div by lia. ring.
Qed.

Lemma read_fixed_fixdigits (k : nat) (n : Z) (r : jstr) :
  0 <= n -> read_fixed k (fixdigits k n ++ r) = Some (n mod 10 ^ Z.of_nat k, r).
Proof.
  intros Hn. induction k as [|k IH]; cbn [read_fixed fixdigits app].
  - rewrite Z.mod_1_r. reflexivity.
  - assert (Hd : is_digit (48 + (n / 10 ^ Z.of_nat k) mod 10) = true).
    { unfold is_digit. pose proof (Z.mod_pos_bound (n / 10 ^ Z.of_nat k) 10 ltac:(lia)).
      apply andb_true_intro; split; apply Z.leb_le; lia. }
    rewrite Hd, IH. cbn [fst snd]. f_equal. f_equal.
    rewrite (mod_pow10_succ n k Hn). lia.
Qed.

Lemma digits_value_acc (ds : jstr) (acc : Z) :
  fold_left (fun acc d => acc * 10 + (d - 48)) ds acc
  = acc * 10 ^ Z.of_nat (length ds) + digits_value ds.
Proof.
  unfold digits_value. revert acc.
  induction ds as [|d ds IH]; intros acc; cbn [fold_left length]; [simpl; lia|].
  rewrite (IH (acc * 10 + (d - 48))), (IH (0 * 10 + (d - 48))).
  rewrite Nat2Z.inj_succ, Z.pow_succ_r by lia. lia.
Qed.

Lemma length_fixdigits (k : nat) (n : Z) : length (fixdigits k n) = k.
Proof. induction k; simpl; auto. Qed.

Lemma digits_value_fixdigits (k : nat) (n : Z) :
  0 <= n -> digits_value (fixdigits k n) = n mod 10 ^ Z.of_nat k.
Proof.
  intros Hn. induction k as [|k IH].
  - simpl. rewrite Z.mod_1_r. reflexivity.
  - unfold digits_value at 1. cbn [fixdigits fold_left].
    rewrite digits_value_acc, IH, length_fixdigits, mod_pow10_succ by exact Hn.
    lia.
Qed.

Lemma digits_value_app (a b : jstr) :
  digits_value (a ++ b) = digits_value a * 10 ^ Z.of_nat (length b) + digits_value b.
Proof.
  unfold digits_value at 1. rewrite fold_left_app.
  fold (digits_value a). rewrite digits_value_acc. reflexivity.
Qed.

Lemma span_digits_app (ds r : jstr) :
  Forall (fun c => is_digit c = true) ds ->
  (forall c r', r = c :: r' -> is_digit c = false) ->
  span_digits (ds ++ r) = (ds, r).
Proof.
  intros Hds Hr. induction Hds as [|c ds Hc _ IH]; cbn [app span_digits].
  - destruct r as [|c r']; [reflexivity|]. cbn [span_digits].
    rewrite (Hr c r' eq_refl). reflexivity.
  - rewrite Hc, IH. reflexivity.
Qed.

Lemma ndig_spec (fuel : nat) (n : Z) :
  0 <= n -> n < 2 ^ Z.of_nat fuel ->
  (1 <= ndig fuel n)%nat /\ n < 10 ^ Z.of_nat (ndig fuel n) /\
  (1 <= n -> 10 ^ Z.of_nat (pred (ndig fuel n)) <= n).
Proof.
  revert n. induction fuel as [|f IH]; intros n H0 H1; cbn [ndig].
  - simpl in H1. split; [lia|]. split; [simpl; lia|]. simpl. lia.
  - destruct (n <? 10) eqn:E.
    + apply Z.ltb_lt in E. simpl. split; [lia|]. split; lia.
    + apply Z.ltb_ge in E.
      assert (Hf : n / 10 < 2 ^ Z.of_nat f).
      { rewrite Nat2Z.inj_succ, Z.pow_succ_r in H1 by lia.
        apply Z.div_lt_upper_bound; lia. }
      destruct (IH (n / 10) (Z.div_pos n 10 H0 ltac:(lia)) Hf) as (Hk & Hlt & Hge).
      split; [lia|]. split.
      * rewrite pow10_succ. set (P := 10 ^ Z.of_nat (ndig f (n / 10))) in *.
        clearbody P. Z.div_mod_to_equations. lia.
      * intros _. simpl pred. destruct (ndig f (n / 10)) as [|k] eqn:Ek; [lia|].
        simpl pred in Hge. rewrite pow10_succ.
        assert (1 <= n / 10) by (apply Z.div_le_lower_bound; lia).
        specialize (Hge H). set (P := 10 ^ Z.of_nat k) in *.
        clearbody P. Z.div_mod_to_equations. lia.
Qed.

Lemma ndigits_spec (n : Z) :
  0 <= n ->
  (1 <= ndigits n)%nat /\ n < 10 ^ Z.of_nat (ndigits n) /\
  (1 <= n -> 10 ^ Z.of_nat (pred (ndigits n)) <= n).
Proof.
  intros Hn. apply ndig_spec; [exact Hn|].
  destruct (Z.eq_dec n 0) as [->|Hz]; [simpl; lia|].
  destruct (Z.log2_spec n ltac:(lia)) as [_ H].
  rewrite Nat2Z.inj_succ, Z2Nat.id by (apply Z.log2_nonneg). exact H.
Qed.

(* ------------------------------------------------------------------ *)
(** *** Calendar, strings, numbers and the stored list *)

Lemma all_from_spec (n : nat) (z : Z) (f : Z -> bool) :
  all_from n z f = true -> forall x, z <= x < z + Z.of_nat n -> f x = true.
Proof.
  revert z. induction n as [|n IH]; intros z H x Hx; simpl in H; [lia|].
  destruct (f z) eqn:E; [|discriminate].
  destruct (Z.eq_dec x z) as [->|Hne]; [exact E|].
  apply (IH (z + 1) H). lia.
Qed.

Lemma civil_doe_all : all_from (Z.to_nat 146097) 0 civil_doe_ok = true.
Proof. vm_compute. reflexivity. Qed.

Lemma is_leap_400 (y k : Z) : is_leap (y + k * 400) = is_leap y.
Proof.
  unfold is_leap.
  replace ((y + k * 400) mod 4) with (y mod 4)
    by (replace (y + k * 400) with (y + (k * 100) * 4) by ring;
        symmetry; apply Z.mod_add; lia).
  replace ((y + k * 400) mod 100) with (y mod 100)
    by (replace (y + k * 400) with (y + (k * 4) * 100) by ring;
        symmetry; apply Z.mod_add; lia).
  replace ((y + k * 400) mod 400) with (y mod 400)
    by (symmetry; apply Z.mod_add; lia).
  reflexivity.
Qed.

Lemma days_in_month_400 (y k m : Z) : days_in_month (y + k * 400) m = days_in_month y m.
Proof. unfold days_in_month. rewrite is_leap_400. reflexivity. Qed.

Ltac bool_facts H :=
  repeat match type of H with
  | _ && _ = true => apply andb_prop in H; destruct H as [H ?]
  end.

Ltac zfacts :=
  repeat match goal with
  | H : (_ <=? _) = true |- _ => apply Z.leb_le in H
  | H : (_ <? _) = true |- _ => apply Z.ltb_lt in H
  | H : (_ =? _) = true |- _ => apply Z.eqb_eq in H
  end.

Lemma civil_from_days_spec (z : Z) :
  let '(y, m, d) := civil_from_days z in
  1 <= m <= 12 /\ 1 <= d <= days_in_month y m /\ days_from_civil y m d = z /\
  (z + 719468) / 146097 * 400 <= y <= (z + 719468) / 146097 * 400 + 400.
Proof.
  unfold civil_from_days. cbv beta zeta.
  assert (Hdoe : 0 <= z + 719468 - (z + 719468) / 146097 * 146097 < 146097)
    by (Z.div_mod_to_equations; lia).
  set (era := (z + 719468) / 146097) in *.
  set (doe := z + 719468 - era * 146097) in *.
  pose proof (all_from_spec _ _ _ civil_doe_all doe ltac:(lia)) as Hc.
  unfold civil_doe_ok in Hc. cbv beta zeta in Hc.
  set (yoe := (doe - doe / 1460 + doe / 36524 - doe / 146096) / 365) in *.
  set (doy := doe - (365 * yoe + yoe / 4 - yoe / 100)) in *.
  set (mp := (5 * doy + 2) / 153) in *.
  set (d := doy - (153 * mp + 2) / 5 + 1) in *.
  set (m := if mp <? 10 then mp + 3 else mp - 9) in *.
  bool_facts Hc. zfacts.
  assert (Hm : 1 <= m <= 12) by (unfold m; destruct (Z.ltb_spec mp 10); lia).
  assert (Hmp : (if 2 <? m then m - 3 else m + 9) = mp)
    by (unfold m; destruct (Z.ltb_spec mp 10);
        [destruct (Z.ltb_spec 2 (mp + 3)) | destruct (Z.ltb_spec 2 (mp - 9))]; lia).
  unfold days_from_civil. cbv beta zeta.
  destruct (m <=? 2) eqn:Em; cbv beta iota.
  -
    replace (yoe + era * 400 + 1 - 1) with (yoe + era * 400) by ring.
    replace ((yoe + era * 400) / 400) with era by (Z.div_mod_to_equations; lia).
    replace (yoe + era * 400 - era * 400) with yoe by ring.
    rewrite Hmp.
    replace (yoe + era * 400 + 1) with ((yoe + 1) + era * 400) by ring.
    rewrite days_in_month_400. repeat split; lia.
  -
    replace ((yoe + era * 400) / 400) with era by (Z.div_mod_to_equations; lia).
    replace (yoe + era * 400 - era * 400) with yoe by ring.
    rewrite Hmp, days_in_month_400. repeat split; lia.
Qed.

Lemma read_year_iso (y : Z) (r : jstr) :
  -1000000 < y < 1000000 -> read_year (iso_year y ++ r) = Some (y, r).
Proof.
  intros Hy. unfold iso_year.
  destruct ((0 <=? y) && (y <=? 9999)) eqn:E.
  - apply andb_prop in E as [E1 E2]. apply Z.leb_le in E1, E2.
    change (fixdigits 4 y) with ((48 + (y / 10 ^ Z.of_nat 3) mod 10) :: fixdigits 3 y).
    cbn [app]. unfold read_year.
    pose proof (Z.mod_pos_bound (y / 10 ^ Z.of_nat 3) 10 ltac:(lia)).
    replace (((48 + (y / 10 ^ Z.of_nat 3) mod 10) =? 43)
             || ((48 + (y / 10 ^ Z.of_nat 3) mod 10) =? 45)) with false
      by (symmetry; apply orb_false_intro; apply Z.eqb_neq; lia).
    change ((48 + (y / 10 ^ Z.of_nat 3) mod 10) :: fixdigits 3 y ++ r)
      with (fixdigits 4 y ++ r).
    rewrite read_fixed_fixdigits by lia. rewrite Z.mod_small by (simpl; lia).
    reflexivity.
  - destruct (y <? 0) eqn:En.
    + apply Z.ltb_lt in En. change (u "-") with [45]. cbn [app]. unfold read_year.
      cbn -[read_fixed fixdigits].
      rewrite read_fixed_fixdigits by lia. rewrite Z.mod_small by (simpl; lia).
      cbn -[read_fixed fixdigits].
      replace (Z.abs y =? 0) with false by (symmetry; apply Z.eqb_neq; lia).
      f_equal. f_equal. lia.
    + apply Z.ltb_ge in En. apply andb_false_iff in E.
      destruct E as [E|E]; apply Z.leb_gt in E; [lia|].
      change (u "+") with [43]. cbn [app]. unfold read_year.
      cbn -[read_fixed fixdigits].
      rewrite read_fixed_fixdigits by lia. rewrite Z.mod_small by (simpl; lia).
      cbn -[read_fixed fixdigits]. f_equal. f_equal. lia.
Qed.

Lemma read_fixed_small (k : nat) (n : Z) (r : jstr) :
  0 <= n < 10 ^ Z.of_nat k -> read_fixed k (fixdigits k n ++ r) = Some (n, r).
Proof.
  intros Hn. rewrite read_fixed_fixdigits by lia. rewrite Z.mod_small by lia.
  reflexivity.
Qed.

Lemma days_in_month_le (y m : Z) : days_in_month y m <= 31.
Proof.
  unfold days_in_month.
  destruct (m =? 2); [destruct (is_leap y)|destruct (_ || _)]; lia.
Qed.

Lemma frac_ms_3 (n : Z) : 0 <= n < 1000 -> frac_ms (fixdigits 3 n) = n.
Proof.
  intros Hn. unfold frac_ms.
  replace (firstn 3 (fixdigits 3 n ++ [48; 48; 48])) with (fixdigits 3 n)
    by reflexivity.
  rewrite digits_value_fixdigits by lia. apply Z.mod_small. cbn. lia.
Qed.

Lemma date_parse_toISOString (t : Z) :
  Z.abs t <= 8640000000000000 -> date_parse (toISOString t) = Some t.
Proof.
  intros Ht. unfold toISOString.
  pose proof (civil_from_days_spec (t / msPerDay)) as Hc.
  destruct (civil_from_days (t / msPerDay)) as [[y m] d] eqn:Ec.
  destruct Hc as (Hm & Hd & Hdays & Hy).
  assert (Hdn : -100000000 <= t / msPerDay <= 100000000)
    by (unfold msPerDay; Z.div_mod_to_equations; lia).
  assert (Hyb : -1000000 < y < 1000000).
  { set (dn := t / msPerDay) in *. clearbody dn.
    set (E := (dn + 719468) / 146097) in *.
    assert (-700 <= E <= 700) by (unfold E; Z.div_mod_to_equations; lia). lia. }
  pose proof (Z.mod_pos_bound t msPerDay ltac:(unfold msPerDay; lia)) as Hms.
  pose proof (Z.div_mod t msPerDay ltac:(unfold msPerDay; lia)) as Ht2.
  set (dn := t / msPerDay) in *. set (ms := t mod msPerDay) in *.
  clearbody dn ms. unfold msPerDay in *.
  pose proof (days_in_month_le y m).
  unfold date_parse. rewrite read_year_iso by lia.
  change (u "-") with [45]. change (u "T") with [84]. change (u ":") with [58].
  change (u ".") with [46]. change (u "Z") with [90].
  assert (Hhms : 0 <= ms / 3600000 < 24 /\ 0 <= (ms / 60000) mod 60 < 60 /\
                 0 <= (ms / 1000) mod 60 < 60 /\ 0 <= ms mod 1000 < 1000 /\
                 ms = ms / 3600000 * 3600000 + (ms / 60000) mod 60 * 60000
                      + (ms / 1000) mod 60 * 1000 + ms mod 1000)
    by (Z.div_mod_to_equations; lia).
  set (hh := ms / 3600000) in *. set (mi := (ms / 60000) mod 60) in *.
  set (ss := (ms / 1000) mod 60) in *. set (mss := ms mod 1000) in *.
  clearbody hh mi ss mss. destruct Hhms as (Hhh & Hmi & Hss & Hmss & Hms').
  cbn -[fixdigits read_fixed days_from_civil time_clip span_digits frac_ms].
  rewrite read_fixed_small by (cbn; lia).
  cbn -[fixdigits read_fixed days_from_civil time_clip span_digits frac_ms].
  rewrite read_fixed_small by (cbn; lia).
  cbn -[fixdigits read_fixed days_from_civil time_clip span_digits frac_ms].
  replace (negb ((1 <=? m) && (m <=? 12) && (1 <=? d) && (d <=? 31)))
    with false by (symmetry; apply negb_false_iff;
                   repeat (apply andb_true_intro; split); apply Z.leb_le; lia).
  rewrite read_fixed_small by (cbn; lia).
  cbn -[fixdigits read_fixed days_from_civil time_clip span_digits frac_ms].
  rewrite read_fixed_small by (cbn; lia).
  cbn -[fixdigits read_fixed days_from_civil time_clip span_digits frac_ms].
  rewrite read_fixed_small by (cbn; lia).
  cbn -[fixdigits read_fixed days_from_civil time_clip span_digits frac_ms].
  rewrite span_digits_app;
    [|apply fixdigits_digits|intros c r' Hr; injection Hr as <- <-; reflexivity].
  cbn -[fixdigits read_fixed days_from_civil time_clip span_digits frac_ms].
  rewrite frac_ms_3 by lia.
  cbn [fixdigits]. cbn -[fixdigits read_fixed days_from_civil time_clip span_digits frac_ms].
  replace ((mi <=? 59) && (ss <=? 59) &&
           ((hh <? 24) || (hh =? 24) && (mi =? 0) && (ss =? 0) && (mss =? 0)))
    with true by (symmetry; repeat (apply andb_true_intro; split);
                  try apply orb_true_intro; try left; first [apply Z.leb_le | apply Z.ltb_lt]; lia).
  rewrite Hdays. unfold time_clip, msPerDay.
  replace (dn * 86400000 + hh * 3600000 + mi * 60000 + ss * 1000 + mss - 0) with t by lia.
  replace (Z.abs t <=? 8640000000000000) with true by (symmetry; apply Z.leb_le; lia).
  reflexivity.
Qed.

Lemma hexval_hexdig (d : Z) : 0 <= d < 16 -> hexval (hexdig d) = Some d.
Proof.
  intros Hd. unfold hexdig, hexval, is_digit.
  destruct (Z.ltb_spec d 10).
  - replace ((48 <=? 48 + d) && (48 + d <=? 57)) with true
      by (symmetry; apply andb_true_intro; split; apply Z.leb_le; lia).
    f_equal. lia.
  - replace ((48 <=? 87 + d) && (87 + d <=? 57)) with false
      by (symmetry; apply andb_false_intro2; apply Z.leb_gt; lia).
    replace ((97 <=? 87 + d) && (87 + d <=? 102)) with true
      by (symmetry; apply andb_true_intro; split; apply Z.leb_le; lia).
    f_equal. lia.
Qed.

Lemma hex4_escape (c : Z) : 0 <= c < 65536 ->
  hex4 (hexdig (c / 4096)) (hexdig ((c / 256) mod 16)) (hexdig ((c / 16) mod 16))
       (hexdig (c mod 16)) = Some c.
Proof.
  intros Hc. unfold hex4.
  rewrite !hexval_hexdig by (Z.div_mod_to_equations; lia).
  f_equal. Z.div_mod_to_equations. lia.
Qed.

Lemma pstr_hex_escape (c : Z) (r : jstr) : 0 <= c < 65536 ->
  pstr (hex_escape c ++ r) = (do p <- pstr r; Some (c :: fst p, snd p)).
Proof.
  intros Hc. unfold hex_escape. cbn [app pstr].
  replace (92 =? 34) with false by reflexivity.
  replace (92 =? 92) with true by reflexivity.
  replace (117 =? 117) with true by reflexivity.
  rewrite hex4_escape by exact Hc. reflexivity.
Qed.

Lemma pstr_plain (c : Z) (r : jstr) : 32 <= c -> c <> 34 -> c <> 92 ->
  pstr (c :: r) = (do p <- pstr r; Some (c :: fst p, snd p)).
Proof.
  intros H1 H2 H3. cbn [pstr].
  replace (c =? 34) with false by (symmetry; apply Z.eqb_neq; exact H2).
  replace (c =? 92) with false by (symmetry; apply Z.eqb_neq; exact H3).
  replace (c <? 32) with false by (symmetry; apply Z.ltb_ge; exact H1).
  reflexivity.
Qed.

Lemma pstr_escape_unit (c : Z) (r : jstr) : 0 <= c < 65536 ->
  pstr (escape_unit c ++ r) = (do p <- pstr r; Some (c :: fst p, snd p)).
Proof.
  intros Hc. unfold escape_unit.
  destruct (Z.eqb_spec c 8); [subst; reflexivity|].
  destruct (Z.eqb_spec c 9); [subst; reflexivity|].
  destruct (Z.eqb_spec c 10); [subst; reflexivity|].
  destruct (Z.eqb_spec c 12); [subst; reflexivity|].
  destruct (Z.eqb_spec c 13); [subst; reflexivity|].
  destruct (Z.eqb_spec c 34); [subst; reflexivity|].
  destruct (Z.eqb_spec c 92); [subst; reflexivity|].
  destruct (Z.ltb_spec c 32); [apply pstr_hex_escape; exact Hc|].
  apply pstr_plain; assumption.
Qed.

Lemma pstr_quote_body (s rest : jstr) :
  units_ok s -> pstr (quote_body s ++ 34 :: rest) = Some (s, rest).
Proof.
  remember (length s) as n eqn:Hn. revert s Hn.
  induction n as [n IH] using (well_founded_induction lt_wf).
  intros s Hn Hs. destruct s as [|c s'].
  - reflexivity.
  - inversion Hs as [|? ? Hc Hs']; subst.
    cbn [quote_body]. destruct (is_high c) eqn:Hh.
    + destruct s' as [|c2 s''].
      * rewrite pstr_hex_escape by exact Hc. reflexivity.
      * inversion Hs' as [|? ? Hc2 Hs'']; subst.
        destruct (is_low c2) eqn:Hl.
        -- unfold is_high, is_low in *.
           apply andb_prop in Hh as [Hh1 Hh2]. apply andb_prop in Hl as [Hl1 Hl2].
           apply Z.leb_le in Hh1, Hh2, Hl1, Hl2.
           cbn [app]. rewrite pstr_plain by lia. rewrite pstr_plain by lia.
           rewrite (IH (length s'')) by (simpl; auto). reflexivity.
        -- rewrite <- app_assoc, pstr_hex_escape by exact Hc.
           rewrite (IH (length (c2 :: s''))) by (simpl; auto). reflexivity.
    + destruct (is_low c) eqn:Hl.
      * rewrite <- app_assoc, pstr_hex_escape by exact Hc.
        rewrite (IH (length s')) by (simpl; auto). reflexivity.
      * rewrite <- app_assoc, pstr_escape_unit by exact Hc.
        rewrite (IH (length s')) by (simpl; auto). reflexivity.
Qed.

Lemma pnum_dec (m : Z) (rest : jstr) :
  delim rest -> pnum (dec m ++ rest) = Some (JNum m 0, rest).
Proof.
  intros Hr.
  assert (Hstop : forall c r', rest = c :: r' ->
                  is_digit c = false /\ (c =? 46) = false /\ ((c =? 101) || (c =? 69)) = false).
  { intros c r' ->. simpl in Hr. destruct Hr as [->|[->| ->]]; auto. }
  destruct (ndigits_spec (Z.abs m) (Z.abs_nonneg m)) as (Hk & Hlt & Hge).
  assert (Hlead : exists d ds, fixdigits (ndigits (Z.abs m)) (Z.abs m) = d :: ds /\
                  (d =? 48) && negb (is_empty ds) = false).
  { destruct (Z.eq_dec (Z.abs m) 0) as [H0|H0].
    - rewrite H0. exists 48, []. split; reflexivity.
    - destruct (ndigits (Z.abs m)) as [|[|k]] eqn:Ek; [lia| |].
      + eexists _, []. split; [reflexivity|]. apply andb_false_r.
      + eexists _, _. split; [reflexivity|].
        specialize (Hge ltac:(lia)). simpl pred in Hge.
        rewrite pow10_succ in Hlt.
        set (P := 10 ^ Z.of_nat (S k)) in *. clearbody P.
        assert (1 <= Z.abs m / P < 10)
          by (split; [apply Z.div_le_lower_bound | apply Z.div_lt_upper_bound]; lia).
        rewrite Z.mod_small by lia.
        apply andb_false_intro1. apply Z.eqb_neq. lia. }
  destruct Hlead as (d & ds & Hfd & Hl).
  assert (Hsp : span_digits ((d :: ds) ++ rest) = (d :: ds, rest)).
  { rewrite <- Hfd. apply span_digits_app; [apply fixdigits_digits|].
    intros c r' E. apply (Hstop c r' E). }
  assert (Hv : digits_value ((d :: ds) ++ []) = Z.abs m).
  { rewrite app_nil_r, <- Hfd, digits_value_fixdigits by lia.
    apply Z.mod_small. lia. }
  unfold pnum, dec. rewrite Hfd.
  destruct (Z.ltb_spec m 0) as [Hneg|Hneg]; cbn [app].
  - replace (45 =? 45) with true by reflexivity. cbn iota beta.
    rewrite <- (app_comm_cons ds rest d) in Hsp. rewrite Hsp. cbn iota beta.
    rewrite Hl.
    destruct rest as [|c r'].
    + cbn iota beta. rewrite Hv. cbn -[Z.abs]. repeat f_equal; lia.
    + destruct (Hstop c r' eq_refl) as (_ & H46 & Hexp). rewrite H46. cbn iota beta.
      rewrite Hexp. cbn iota beta. rewrite Hv. cbn -[Z.abs]. repeat f_equal; lia.
  - assert (Hd : (d =? 45) = false).
    { pose proof (fixdigits_digits (ndigits (Z.abs m)) (Z.abs m)) as HF.
      rewrite Hfd in HF. inversion HF as [|? ? Hd' _]. unfold is_digit in Hd'.
      apply andb_prop in Hd' as [Hd1 _]. apply Z.leb_le in Hd1. apply Z.eqb_neq. lia. }
    rewrite Hd. cbn iota beta.
    rewrite <- (app_comm_cons ds rest d) in Hsp. rewrite Hsp. cbn iota beta.
    rewrite Hl.
    destruct rest as [|c r'].
    + cbn iota beta. rewrite Hv. cbn -[Z.abs]. repeat f_equal; lia.
    + destruct (Hstop c r' eq_refl) as (_ & H46 & Hexp). rewrite H46. cbn iota beta.
      rewrite Hexp. cbn iota beta. rewrite Hv. cbn -[Z.abs]. repeat f_equal; lia.
Qed.

Lemma json_print_arr (l : list json) : json_print (JArr l) = 91 :: print_elems l ++ [93].
Proof. reflexivity. Qed.

Lemma json_print_obj (fs : list (jstr * json)) :
  json_print (JObj fs) = 123 :: print_fields fs ++ [125].
Proof. reflexivity. Qed.

Lemma strip_zeros_spec (fuel : nat) (a : Z) (j : nat) :
  0 < a ->
  let '(sd, j') := strip_zeros fuel a j in
  0 < sd /\ (j <= j')%nat /\ a * 10 ^ Z.of_nat j = sd * 10 ^ Z.of_nat j'.
Proof.
  revert a j. induction fuel as [|f IH]; intros a j Ha; cbn [strip_zeros].
  - lia.
  - destruct (Z.eqb_spec (a mod 10) 0) as [H0|H0], (Z.eqb_spec a 0) as [H1|H1];
      cbn [andb negb]; try lia.
    assert (Ha' : 0 < a / 10).
    { apply Z.div_str_pos. pose proof (Z.div_mod a 10 ltac:(lia)).
      destruct (Z.le_gt_cases 10 a); [lia|]. rewrite Z.mod_small in H0 by lia. lia. }
    specialize (IH (a / 10) (S j) Ha').
    destruct (strip_zeros f (a / 10) (S j)) as [sd j'].
    destruct IH as (Hs & Hj & He). split; [exact Hs|]. split; [lia|].
    rewrite <- He, Nat2Z.inj_succ, Z.pow_succ_r by lia.
    pose proof (Z.div_mod a 10 ltac:(lia)). lia.
Qed.

Lemma digit_not (d c : Z) : is_digit d = true -> 57 < c \/ c < 48 -> (d =? c) = false.
Proof.
  unfold is_digit. intros H Hc. apply andb_prop in H as [H1 H2].
  apply Z.leb_le in H1, H2. apply Z.eqb_neq. lia.
Qed.

Lemma dec_nonneg (E : Z) : 0 <= E -> dec E = fixdigits (ndigits E) E.
Proof.
  intros HE. unfold dec. replace (E <? 0) with false by (symmetry; apply Z.ltb_ge; lia).
  rewrite Z.abs_eq by lia. reflexivity.
Qed.

Lemma pnum_exp_form (neg : bool) (d : Z) (r : jstr) (E : Z) (rest : jstr) :
  is_digit d = true -> Forall (fun c => is_digit c = true) r -> 0 <= E -> delim rest ->
  pnum ((if neg then [45] else [])
        ++ (d :: match r with [] => [] | _ => 46 :: r end)
        ++ [101; 43] ++ dec E ++ rest)
  = Some (let z := digits_value (d :: r) in
          let z := if neg then - z else z in
          let x := E - Z.of_nat (length r) in
          if 0 <=? x then JNum (z * 10 ^ x) 0 else JNum z x, rest).
Proof.
  intros Hd Hr HE Hrest.
  assert (Hstop : forall c r', rest = c :: r' -> is_digit c = false).
  { intros c r' ->. simpl in Hrest. destruct Hrest as [->|[->| ->]]; reflexivity. }
  destruct (ndigits_spec E HE) as (Hk & Hlt & _).
  assert (Hexp : span_digits (dec E ++ rest) = (dec E, rest)).
  { rewrite dec_nonneg by exact HE. apply span_digits_app; [apply fixdigits_digits|exact Hstop]. }
  assert (Hev : digits_value (dec E) = E).
  { rewrite dec_nonneg, digits_value_fixdigits by exact HE. apply Z.mod_small. lia. }
  assert (Hne : exists e0 es, dec E = e0 :: es).
  { rewrite dec_nonneg by exact HE.
    destruct (fixdigits (ndigits E) E) as [|e0 es] eqn:Ef; [|eauto].
    apply (f_equal (@length Z)) in Ef. rewrite length_fixdigits in Ef. simpl in Ef. lia. }
  destruct Hne as (e0 & es & Hee).
  assert (Hmid : forall s2,
    s2 = match r with [] => [] | _ => 46 :: r end ++ [101; 43] ++ dec E ++ rest ->
    (do q <- match s2 with
              | c :: r0 => if c =? 46 then
                             match span_digits r0 with
                             | ([], _) => None
                             | (fds, r') => Some (fds, r')
                             end
                           else Some ([], s2)
              | [] => Some ([], s2)
              end;
     let '(fds, s3) := q in
     do x <- match s3 with
             | c :: r0 =>
                 if (c =? 101) || (c =? 69) then
                   let '(sg, r1) := match r0 with
                                    | c2 :: r2 => if c2 =? 43 then (1, r2)
                                                  else if c2 =? 45 then (-1, r2)
                                                  else (1, r0)
                                    | [] => (1, r0)
                                    end in
                   match span_digits r1 with
                   | ([], _) => None
                   | (eds, r') => Some (sg * digits_value eds, r')
                   end
                 else Some (0, s3)
             | [] => Some (0, s3)
             end;
     let '(ex, s4) := x in
     let mag := digits_value ([d] ++ fds) in
     let z := if neg then - mag else mag in
     let x := ex - Z.of_nat (length fds) in
     Some (if 0 <=? x then JNum (z * 10 ^ x) 0 else JNum z x, s4))
    = Some (let z := digits_value (d :: r) in
            let z := if neg then - z else z in
            let x := E - Z.of_nat (length r) in
            if 0 <=? x then JNum (z * 10 ^ x) 0 else JNum z x, rest)).
  { intros s2 ->.
    assert (Hq : forall fds, Forall (fun c => is_digit c = true) fds ->
      span_digits (fds ++ [101; 43] ++ dec E ++ rest) = (fds, [101; 43] ++ dec E ++ rest)).
    { intros fds Hf. apply span_digits_app; [exact Hf|]. intros c r' E'.
      injection E' as <- _. reflexivity. }
    destruct r as [|c r0] eqn:Er.
    - cbn [app]. replace (101 =? 46) with false by reflexivity. cbn iota beta zeta.
      replace ((101 =? 101) || (101 =? 69)) with true by reflexivity.
      replace (43 =? 43) with true by reflexivity. cbn iota beta zeta.
      rewrite Hexp, Hee. rewrite <- Hee, Hev, Z.mul_1_l. reflexivity.
    - cbn [app]. replace (46 =? 46) with true by reflexivity. cbn iota beta zeta.
      specialize (Hq (c :: r0) Hr). cbn [app] in Hq. rewrite Hq. cbn iota beta zeta.
      replace ((101 =? 101) || (101 =? 69)) with true by reflexivity.
      replace (43 =? 43) with true by reflexivity. cbn iota beta zeta.
      rewrite Hexp, Hee. rewrite <- Hee, Hev, Z.mul_1_l. reflexivity. }
  unfold pnum.
  assert (Hsp : forall X, X = [101; 43] ++ dec E ++ rest ->
                span_digits (d :: match r with [] => [] | _ => 46 :: r end ++ X)
                = ([d], match r with [] => [] | _ => 46 :: r end ++ X)).
  { intros X ->. apply (span_digits_app [d] (match r with [] => [] | _ => 46 :: r end ++ _)).
    - constructor; [exact Hd|constructor].
    - destruct r; intros c' r' Ec; injection Ec as <- _; reflexivity. }
  destruct neg; cbn [app].
  - replace (45 =? 45) with true by reflexivity. cbn iota beta zeta.
    rewrite (Hsp (101 :: 43 :: dec E ++ rest)) by reflexivity. cbn iota beta zeta.
    cbn [is_empty negb]. rewrite andb_false_r. exact (Hmid _ eq_refl).
  - rewrite (digit_not d 45 Hd) by lia. cbn iota beta zeta.
    rewrite (Hsp (101 :: 43 :: dec E ++ rest)) by reflexivity. cbn iota beta zeta.
    cbn [is_empty negb]. rewrite andb_false_r. exact (Hmid _ eq_refl).
Qed.

Lemma pnum_num_print (m : Z) (rest : jstr) :
  delim rest -> pnum (num_print m ++ rest) = Some (JNum m 0, rest).
Proof.
  intros Hr. unfold num_print.
  destruct (Z.ltb_spec (Z.abs m) (10 ^ 21)) as [Hs|Hb]; [apply pnum_dec; exact Hr|].
  pose proof (strip_zeros_spec (ndigits (Z.abs m)) (Z.abs m) O ltac:(lia)) as Hz.
  destruct (strip_zeros (ndigits (Z.abs m)) (Z.abs m) 0) as [sd j] eqn:Esz.
  destruct Hz as (Hsd & _ & Ha). cbn [Z.of_nat Z.pow] in Ha. rewrite Z.mul_1_r in Ha.
  destruct (ndigits_spec sd ltac:(lia)) as (Hk & Hlt & _).
  pose proof (fixdigits_digits (ndigits sd) sd) as HF.
  assert (Hv : digits_value (fixdigits (ndigits sd) sd) = sd)
    by (rewrite digits_value_fixdigits by lia; apply Z.mod_small; lia).
  pose proof (length_fixdigits (ndigits sd) sd) as Hlen.
  destruct (fixdigits (ndigits sd) sd) as [|d r] eqn:Ef; [simpl in Hlen; lia|].
  apply Forall_cons_iff in HF as [Hd Hr'].
  rewrite <- !app_assoc.
  rewrite (pnum_exp_form (m <? 0) d r (Z.of_nat (ndigits sd + j) - 1) rest Hd Hr')
    by (lia || exact Hr).
  cbv zeta. simpl length in Hlen.
  replace (Z.of_nat (ndigits sd + j) - 1 - Z.of_nat (length r)) with (Z.of_nat j) by lia.
  replace (0 <=? Z.of_nat j) with true by (symmetry; apply Z.leb_le; lia).
  rewrite Hv. do 3 f_equal.
  set (P := 10 ^ Z.of_nat j) in *. clearbody P.
  destruct (Z.ltb_spec m 0); nia.
Qed.

Lemma dec_head (m : Z) (rest : jstr) :
  exists c r, dec m ++ rest = c :: r /\ (c = 45 \/ 48 <= c <= 57).
Proof.
  unfold dec. destruct (m <? 0).
  - exists 45. eexists. split; [reflexivity|]. left; reflexivity.
  - destruct (ndigits_spec (Z.abs m) (Z.abs_nonneg m)) as (Hk & _ & _).
    pose proof (fixdigits_digits (ndigits (Z.abs m)) (Z.abs m)) as HF.
    destruct (fixdigits (ndigits (Z.abs m)) (Z.abs m)) as [|c ds] eqn:E.
    + apply (f_equal (@length Z)) in E. rewrite length_fixdigits in E. simpl in E. lia.
    + inversion HF as [|? ? Hc _]. unfold is_digit in Hc.
      apply andb_prop in Hc as [Hc1 Hc2]. apply Z.leb_le in Hc1, Hc2.
      exists c. eexists. split; [reflexivity|]. right; lia.
Qed.

Lemma num_print_head (m : Z) (rest : jstr) :
  exists c r, num_print m ++ rest = c :: r /\ (c = 45 \/ 48 <= c <= 57).
Proof.
  unfold num_print. destruct (Z.abs m <? 10 ^ 21); [apply dec_head|].
  destruct (strip_zeros (ndigits (Z.abs m)) (Z.abs m) 0) as [sd j].
  destruct (m <? 0).
  - exists 45. eexists. split; [reflexivity|]. left; reflexivity.
  - assert (Hk : (1 <= ndigits sd)%nat)
      by (unfold ndigits; cbn [ndig]; destruct (sd <? 10); lia).
    pose proof (fixdigits_digits (ndigits sd) sd) as HF.
    destruct (fixdigits (ndigits sd) sd) as [|d r] eqn:E.
    + apply (f_equal (@length Z)) in E. rewrite length_fixdigits in E. simpl in E. lia.
    + apply Forall_cons_iff in HF as [Hd _]. unfold is_digit in Hd.
      apply andb_prop in Hd as [Hd1 Hd2]. apply Z.leb_le in Hd1, Hd2.
      exists d. eexists. split; [reflexivity|]. right; lia.
Qed.

Lemma pval_num_head (f : nat) (m : Z) (rest : jstr) :
  pval (S f) (num_print m ++ rest) = pnum (num_print m ++ rest).
Proof.
  pose proof (num_print_head m rest) as H.
  destruct H as (c & r & -> & Hc). cbn [pval skip_ws].
  replace (is_ws c) with false
    by (symmetry; unfold is_ws; repeat rewrite orb_false_iff; repeat split; apply Z.eqb_neq; lia).
  replace (c =? 91) with false by (symmetry; apply Z.eqb_neq; lia).
  replace (c =? 123) with false by (symmetry; apply Z.eqb_neq; lia).
  replace (c =? 34) with false by (symmetry; apply Z.eqb_neq; lia).
  replace (c =? 116) with false by (symmetry; apply Z.eqb_neq; lia).
  replace (c =? 102) with false by (symmetry; apply Z.eqb_neq; lia).
  replace (c =? 110) with false by (symmetry; apply Z.eqb_neq; lia).
  reflexivity.
Qed.

Lemma pval_flat (f : nat) (v : json) (rest : jstr) :
  flat v -> delim rest -> pval (S f) (json_print v ++ rest) = Some (v, rest).
Proof.
  destruct v as [| [|] | m e | s | l | fs]; intros Hv Hr; try contradiction;
    try reflexivity.
  - simpl in Hv. subst e. cbn [json_print]. replace (0 =? 0) with true by reflexivity.
    rewrite pval_num_head. apply pnum_num_print. exact Hr.
  - cbn [json_print quote app]. rewrite <- app_assoc. cbn [app pval skip_ws].
    replace (is_ws 34) with false by reflexivity.
    replace (34 =? 91) with false by reflexivity.
    replace (34 =? 123) with false by reflexivity.
    replace (34 =? 34) with true by reflexivity.
    rewrite pstr_quote_body by exact Hv. reflexivity.
Qed.

Lemma skip_ws_quote (k r : jstr) : skip_ws (quote k ++ r) = quote k ++ r.
Proof. reflexivity. Qed.

Lemma pstr_quote (k r : jstr) :
  units_ok k -> pstr (quote_body k ++ [34] ++ r) = Some (k, r).
Proof. intros Hk. apply pstr_quote_body. exact Hk. Qed.

Lemma expect_same (c : Z) (r : jstr) : expect c (c :: r) = Some r.
Proof. unfold expect. rewrite Z.eqb_refl. reflexivity. Qed.

Lemma pobj_fields (f : nat) (fs : list (jstr * json)) (rest : jstr) :
  fs <> [] -> Forall (fun kv => units_ok (fst kv) /\ flat (snd kv)) fs ->
  (length fs < f)%nat ->
  pobj f (print_fields fs ++ 125 :: rest) = Some (fs, rest).
Proof.
  revert f. induction fs as [|[k v] fs IH]; intros f Hne Hok Hf; [congruence|].
  inversion Hok as [|? ? [Hk Hv] Hok']; subst.
  destruct f as [|f]; [simpl in Hf; lia|].
  cbn [print_fields]. rewrite <- !app_assoc.
  cbn [pobj]. rewrite skip_ws_quote. unfold quote. cbn [app].
  replace (34 =? 34) with true by reflexivity. cbn iota beta.
  rewrite <- !app_assoc. rewrite pstr_quote by exact Hk. cbn [fst snd].
  cbn [skip_ws]. replace (is_ws 58) with false by reflexivity.
  rewrite expect_same. cbn iota beta.
  destruct f as [|f]; [simpl in Hf; lia|].
  destruct fs as [|kv fs'].
  - cbn [app]. rewrite pval_flat by (simpl; auto). cbn [fst snd skip_ws].
    replace (is_ws 125) with false by reflexivity.
    replace (125 =? 44) with false by reflexivity.
    replace (125 =? 125) with true by reflexivity. reflexivity.
  - cbn [app]. rewrite pval_flat by (simpl; auto). cbn [fst snd skip_ws].
    replace (is_ws 44) with false by reflexivity.
    replace (44 =? 44) with true by reflexivity. cbn iota beta.
    rewrite IH by (auto; congruence || (simpl in *; lia)). reflexivity.
Qed.

Lemma jstr_eqb_false (a b : jstr) : a <> b -> jstr_eqb a b = false.
Proof. intros H. unfold jstr_eqb. destruct (list_eq_dec Z.eq_dec a b); congruence. Qed.

Lemma obj_set_fresh {V} (acc : list (jstr * V)) (k : jstr) (v : V) :
  ~ In k (map fst acc) -> obj_set acc k v = acc ++ [(k, v)].
Proof.
  induction acc as [|[k' v'] acc IH]; intros Hk; [reflexivity|].
  cbn [obj_set]. simpl in Hk.
  rewrite jstr_eqb_false by (intros ->; tauto).
  rewrite IH by tauto. reflexivity.
Qed.

Lemma fold_obj_set (acc fs : list (jstr * json)) :
  NoDup (map fst (acc ++ fs)) ->
  fold_left (fun acc kv => obj_set acc (fst kv) (snd kv)) fs acc = acc ++ fs.
Proof.
  revert acc. induction fs as [|kv fs IH]; intros acc H; cbn [fold_left].
  - rewrite app_nil_r. reflexivity.
  - rewrite map_app in H. cbn [map] in H.
    rewrite obj_set_fresh.
    + destruct kv as [k v]. rewrite IH.
      * rewrite <- app_assoc. reflexivity.
      * rewrite <- app_assoc, map_app. exact H.
    + intros Hin. apply (NoDup_remove_2 _ _ _ H). apply in_or_app. left. exact Hin.
Qed.

Lemma build_obj_nodup (fs : list (jstr * json)) :
  NoDup (map fst fs) -> build_obj fs = fs.
Proof. intros H. apply (fold_obj_set [] fs H). Qed.

Lemma pval_obj (f : nat) (fs : list (jstr * json)) (rest : jstr) :
  fs <> [] -> Forall (fun kv => units_ok (fst kv) /\ flat (snd kv)) fs ->
  NoDup (map fst fs) -> (S (length fs) < f)%nat ->
  pval f (json_print (JObj fs) ++ rest) = Some (JObj fs, rest).
Proof.
  intros Hne Hok Hnd Hf. destruct f as [|f]; [lia|].
  assert (HR : exists R', print_fields fs ++ 125 :: rest = 34 :: R').
  { destruct fs as [|[k v] fs']; [congruence|]. cbn [print_fields quote app].
    eexists. reflexivity. }
  destruct HR as [R' HR].
  rewrite json_print_obj. cbn [app]. rewrite <- app_assoc. cbn [app pval skip_ws].
  replace (is_ws 123) with false by reflexivity.
  replace (123 =? 91) with false by reflexivity.
  replace (123 =? 123) with true by reflexivity. cbn iota beta.
  rewrite pobj_fields by (auto; lia). rewrite HR. cbn [skip_ws].
  replace (is_ws 34) with false by reflexivity.
  replace (34 =? 125) with false by reflexivity. cbn iota beta. cbn [fst snd].
  rewrite build_obj_nodup by exact Hnd. reflexivity.
Qed.

Section ParseArray.

Variable N : nat.

Variable good : json -> Prop.

Hypothesis pval_good : forall v g r, good v -> (N <= g)%nat -> delim r ->
  pval g (json_print v ++ r) = Some (v, r).

Lemma parr_elems (f : nat) (vs : list json) (rest : jstr) :
  vs <> [] -> Forall good vs -> (N + length vs <= f)%nat ->
  parr f (print_elems vs ++ 93 :: rest) = Some (vs, rest).
Proof.
  revert f. induction vs as [|v vs IH]; intros f Hne Hok Hf; [congruence|].
  inversion Hok as [|? ? Hv Hok']; subst.
  destruct f as [|f]; [simpl in Hf; lia|].
  cbn [print_elems]. rewrite <- app_assoc. cbn [parr].
  destruct vs as [|v' vs'].
  - cbn [app]. rewrite pval_good by (auto; simpl in *; lia). cbn [fst snd skip_ws].
    replace (is_ws 93) with false by reflexivity.
    replace (93 =? 44) with false by reflexivity.
    replace (93 =? 93) with true by reflexivity. reflexivity.
  - cbn [app]. rewrite pval_good by (auto; simpl in *; lia). cbn [fst snd skip_ws].
    replace (is_ws 44) with false by reflexivity.
    replace (44 =? 44) with true by reflexivity. cbn iota beta.
    rewrite IH by (auto; congruence || (simpl in *; lia)). reflexivity.
Qed.

Hypothesis good_head : forall v, good v ->
  exists c r, json_print v = c :: r /\ is_ws c = false /\ c <> 93.

Lemma json_parse_arr (vs : list json) :
  Forall good vs -> (vs <> [] -> (N + length vs <= length (print_elems vs))%nat) ->
  json_parse (json_print (JArr vs)) = Some (JArr vs).
Proof.
  intros Hok Hlen. unfold json_parse. rewrite json_print_arr.
  destruct vs as [|v vs']; [reflexivity|].
  assert (HR : exists c R, print_elems (v :: vs') ++ [93] = c :: R /\
                           is_ws c = false /\ c <> 93).
  { inversion Hok as [|? ? Hv _]; subst.
    destruct (good_head v Hv) as (c & r & Hp & Hc1 & Hc2).
    cbn [print_elems]. rewrite Hp. exists c. eexists. split; [reflexivity|auto]. }
  destruct HR as (c & R & HR & Hc1 & Hc2).
  remember (print_elems (v :: vs')) as P eqn:HP.
  cbn [length]. cbn [pval skip_ws].
  replace (is_ws 91) with false by reflexivity.
  replace (91 =? 91) with true by reflexivity. cbn iota beta.
  subst P. specialize (Hlen ltac:(congruence)).
  rewrite parr_elems by (auto; congruence || (rewrite length_app in *; simpl in *; lia)).
  rewrite HR. cbn [skip_ws]. rewrite Hc1.
  replace (c =? 93) with false by (symmetry; apply Z.eqb_neq; exact Hc2).
  reflexivity.
Qed.

End ParseArray.

Lemma units_okb_spec (s : jstr) : units_okb s = true -> units_ok s.
Proof.
  intros H. apply Forall_forall. intros c Hc. unfold units_okb in H.
  rewrite forallb_forall in H. specialize (H c Hc).
  apply andb_prop in H as [H1 H2]. apply Z.leb_le in H1. apply Z.ltb_lt in H2. lia.
Qed.

Lemma units_ok_fixdigits (k : nat) (n : Z) : units_ok (fixdigits k n).
Proof.
  eapply Forall_impl; [|apply fixdigits_digits].
  intros c Hc. unfold is_digit in Hc. apply andb_prop in Hc as [H1 H2].
  apply Z.leb_le in H1, H2. lia.
Qed.

Lemma units_ok_toISOString (t : Z) : units_ok (toISOString t).
Proof.
  unfold toISOString. destruct (civil_from_days (t / msPerDay)) as [[y m] d].
  unfold iso_year.
  change (u "-") with [45]. change (u "+") with [43]. change (u "T") with [84].
  change (u ":") with [58]. change (u ".") with [46]. change (u "Z") with [90].
  unfold units_ok.
  repeat first [ apply Forall_app; split | apply units_ok_fixdigits
               | destruct (_ && _) | destruct (_ <? _) | constructor; [lia|] | constructor ].
Qed.

Lemma todo_fields_ok (t : Todo) : todo_wf t ->
  exists fs, todo_json t = JObj fs /\ fs <> [] /\
    Forall (fun kv => units_ok (fst kv) /\ flat (snd kv)) fs /\
    NoDup (map fst fs) /\ (length fs <= 8)%nat.
Proof.
  intros (Htx & Hcat & Hdue & Hnotes & _).
  eexists. split; [reflexivity|].
  assert (Hk : forall k, units_okb k = true -> units_ok k) by exact units_okb_spec.
  assert (Hiso := units_ok_toISOString (createdAt t)).
  assert (Hpr : units_ok (prio_str (priority t)))
    by (destruct (priority t); apply units_okb_spec; reflexivity).
  destruct (dueDate t) as [dd|] eqn:Ed; destruct (notes t) as [nn|] eqn:En;
    cbn [app map length].
  all: split; [discriminate|].
  all: split; [|split; [|simpl; lia]].
  all: try (match goal with |- Forall _ _ => idtac end;
       repeat (apply Forall_cons;
               [split; [apply Hk; reflexivity
                       |cbn [snd flat]; first [assumption | apply Hdue; reflexivity
                                              | apply Hnotes; reflexivity
                                              | reflexivity | exact I]]|]);
       apply Forall_nil).
  all: repeat (apply NoDup_cons; [cbn; intuition discriminate|]); apply NoDup_nil.
Qed.

Lemma pval_todo (t : Todo) (g : nat) (r : jstr) :
  todo_wf t -> (10 <= g)%nat -> delim r ->
  pval g (json_print (todo_json t) ++ r) = Some (todo_json t, r).
Proof.
  intros Hwf Hg Hr. destruct (todo_fields_ok t Hwf) as (fs & Hfs & Hne & Hok & Hnd & Hlen).
  rewrite Hfs. apply pval_obj; auto. lia.
Qed.

Lemma todo_print_head (t : Todo) :
  exists r, json_print (todo_json t) = 123 :: r /\ (11 <= length r)%nat.
Proof.
  unfold todo_json. rewrite json_print_obj. eexists. split; [reflexivity|].
  cbn [app print_fields]. cbn [quote app].
  repeat (progress cbn [length] || rewrite length_app).
  change (length (quote_body (u "id"))) with 2%nat.
  change (length (quote_body (u "text"))) with 4%nat. lia.
Qed.

Lemma print_elems_length (vs : list json) :
  Forall (fun v => (12 <= length (json_print v))%nat) vs ->
  (12 * length vs <= length (print_elems vs))%nat.
Proof.
  induction vs as [|v vs IH]; intros H; [simpl; lia|].
  inversion H as [|? ? Hv Hvs]; subst. cbn [print_elems length].
  rewrite length_app. specialize (IH Hvs).
  destruct vs as [|v' vs']; cbn [length] in *; lia.
Qed.

Lemma json_parse_persist (L : list Todo) :
  Forall todo_wf L -> json_parse (persist L) = Some (JArr (map todo_json L)).
Proof.
  intros HL. unfold persist.
  apply (json_parse_arr 10 (fun v => exists t, v = todo_json t /\ todo_wf t)).
  - intros v g r (t & -> & Ht) Hg Hr. apply pval_todo; assumption.
  - intros v (t & -> & _). destruct (todo_print_head t) as (r & Hr & _).
    exists 123, r. split; [exact Hr|]. split; [reflexivity|lia].
  - apply Forall_map. eapply Forall_impl; [|exact HL]. intros t Ht. exists t. auto.
  - intros Hne. 
    assert (H12 : (12 * length (map todo_json L) <= length (print_elems (map todo_json L)))%nat).
    { apply print_elems_length. apply Forall_map. apply Forall_forall. intros t _.
      destruct (todo_print_head t) as (r & Hr & Hlen). rewrite Hr. simpl. lia. }
    destruct L; [simpl in Hne; congruence|]. simpl length in *. lia.
Qed.

Lemma map_opt_hydrate (L : list Todo) :
  map_opt hydrate_item (map todo_json L) = Some (map hydrated_todo L).
Proof.
  induction L as [|t L IH]; [reflexivity|]. cbn [map map_opt]. rewrite IH.
  assert (H : createdAt_throws (todo_json t) = false)
    by (unfold createdAt_throws, todo_json; destruct (dueDate t); reflexivity).
  change (hydrate_item (todo_json t))
    with (if createdAt_throws (todo_json t) then None else Some (hydrated_todo t)).
  rewrite H. reflexivity.
Qed.

Lemma hydrated_restores (t : Todo) :
  Z.abs (createdAt t) <= 8640000000000000 -> restores (hydrated_todo t) t.
Proof.
  intros Ht. unfold restores, hydrated_todo, todo_json.
  destruct (dueDate t) as [dd|], (notes t) as [nn|];
    (split; [reflexivity|]); (split; [reflexivity|]); (split; [reflexivity|]);
    (split; [reflexivity|]); (split; [reflexivity|]); (split; [reflexivity|]);
    (split; [reflexivity|]);
    exists (toISOString (createdAt t)); (split; [reflexivity|]);
    apply date_parse_toISOString; exact Ht.
Qed.

(** C6: for every list [L] of tasks whose strings are sequences of UTF-16
    code units and whose [createdAt] is a valid time value, hydrating from
    the string that the persistence effect stores, [persist L], gives one
    record per task, in the order of [L]; each record holds the task's
    [id], [text], [completed], [priority], [category], [dueDate] and
    [notes], and a [createdAt] string that [Date.parse] maps back to the
    exact time value of the task. *)
Theorem persist_hydrate (L : list Todo) :
  Forall todo_wf L ->
  exists os, hydrate (Some (persist L)) = Hydrated os /\ Forall2 restores os L.
Proof.
  intros HL. exists (map hydrated_todo L). split.
  - unfold hydrate.
    assert (Hne : exists c r, persist L = c :: r)
      by (unfold persist; rewrite json_print_arr; eexists; eexists; reflexivity).
    destruct Hne as (c & r & Hcr). rewrite Hcr, <- Hcr.
    rewrite json_parse_persist by exact HL. rewrite map_opt_hydrate. reflexivity.
  - induction HL as [|t L Ht HL IH]; constructor; [|exact IH].
    apply hydrated_restores. destruct Ht as (_ & _ & _ & _ & Hc). exact Hc.
Qed.

Lemma persist_hydrate_witness :
  let t := mkTodo 1700000000000 [104; 233; 55357; 34; 92; 10] false High (u "home")
             (Some (u "2024-05-01")) (-62198755200001) None in
  Forall todo_wf [t] /\
  exists os, hydrate (Some (persist [t])) = Hydrated os /\ Forall2 restores os [t].
Proof.
  intros t.
  assert (Hwf : Forall todo_wf [t]).
  { constructor; [|constructor]. unfold todo_wf; cbn.
    split; [apply units_okb_spec; vm_compute; reflexivity|].
    split; [apply units_okb_spec; vm_compute; reflexivity|].
    split; [intros d Hd; injection Hd as <-; apply units_okb_spec; vm_compute; reflexivity|].
    split; [intros n Hn; discriminate|].
    vm_compute. discriminate. }
  split; [exact Hwf|]. apply persist_hydrate. exact Hwf.
Defined.

(* ------------------------------------------------------------------ *)
(** ** The other mutations, the category list and the view *)

Lemma length_filter_map (p q : Todo -> bool) (f : Todo -> Todo) (l : list Todo) :
  (forall t, p (f t) = q t) ->
  length (filter p (map f l)) = length (filter q l).
Proof.
  intros H. induction l as [|a l IH]; simpl; [reflexivity|].
  rewrite H. destruct (q a); simpl; rewrite IH; reflexivity.
Qed.

(** A map that keeps the completion flag and the due date of every task
    leaves the statistics unchanged. *)
Lemma stats_map (now : Z) (f : Todo -> Todo) (l : list Todo) :
  (forall t, completed (f t) = completed t /\ dueDate (f t) = dueDate t) ->
  stats now (map f l) = stats now l.
Proof.
  intros H. unfold stats. rewrite length_map.
  assert (Hd : forall t, has_due (f t) = has_due t /\ due_before now (f t) = due_before now t).
  { intros t. destruct (H t) as [_ Hd]. unfold has_due, due_before, due_time.
    rewrite Hd. split; reflexivity. }
  f_equal; f_equal; apply length_filter_map; intros t;
    destruct (H t) as [Hc _]; destruct (Hd t) as [H1 H2];
    rewrite ?Hc, ?H1, ?H2; reflexivity.
Qed.

Lemma filter_filter {A} (p q : A -> bool) (l : list A) :
  filter p (filter q l) = filter (fun x => q x && p x) l.
Proof.
  induction l as [|a l IH]; simpl; [reflexivity|].
  destruct (q a); simpl; [destruct (p a); simpl|]; rewrite IH; reflexivity.
Qed.

Lemma filter_ext_eq {A} (p q : A -> bool) (l : list A) :
  (forall x, p x = q x) -> filter p l = filter q l.
Proof.
  intros H. induction l as [|a l IH]; simpl; [reflexivity|].
  rewrite H, IH. reflexivity.
Qed.

Lemma perm_filter {A} (p : A -> bool) (l l' : list A) :
  Permutation l l' -> Permutation (filter p l) (filter p l').
Proof.
  induction 1; simpl.
  - constructor.
  - destruct (p x); [constructor|]; assumption.
  - destruct (p x), (p y); try constructor; reflexivity.
  - eapply perm_trans; eassumption.
Qed.

Lemma stats_perm (now : Z) (l l' : list Todo) :
  Permutation l l' -> stats now l = stats now l'.
Proof.
  intros H. unfold stats.
  rewrite (Permutation_length H).
  repeat rewrite (Permutation_length (perm_filter _ _ _ H)).
  reflexivity.
Qed.

Lemma deleteTodo_absent (i : Z) (l : list Todo) :
  (forall t, In t l -> id t <> i) -> deleteTodo i l = l.
Proof.
  unfold deleteTodo. induction l as [|a l IH]; intros H; simpl; [reflexivity|].
  assert (Ha : id a <> i) by (apply H; left; reflexivity).
  apply Z.eqb_neq in Ha. rewrite Ha. simpl.
  rewrite IH; [reflexivity|]. intros t Ht. apply H. right. exact Ht.
Qed.

Lemma handleDrop_perm (d : option Z) (t : Z) (l : list Todo) :
  Permutation (handleDrop d t l) l.
Proof.
  unfold handleDrop. destruct d as [d|]; [|reflexivity].
  destruct (find_index (has_id d) l) as [di|]; [|reflexivity].
  destruct (find_index (has_id t) l) as [ti|]; [|reflexivity].
  destruct (nth_error l di) as [x|] eqn:E; [|reflexivity].
  destruct (nth_error_decompose l di x E) as (l1 & l2 & -> & <-).
  rewrite remove_at_middle. unfold insert_at.
  rewrite <- Permutation_middle.
  rewrite <- Permutation_middle, firstn_skipn. reflexivity.
Qed.

Lemma jstr_eqb_spec (a b : jstr) : jstr_eqb a b = true <-> a = b.
Proof.
  unfold jstr_eqb. destruct (list_eq_dec Z.eq_dec a b); split; congruence.
Qed.

Lemma existsb_jstr_eqb (x : jstr) (s : list jstr) :
  existsb (jstr_eqb x) s = true <-> In x s.
Proof.
  rewrite existsb_exists. split.
  - intros (y & Hy & E). apply jstr_eqb_spec in E. subst. exact Hy.
  - intros H. exists x. split; [exact H|]. apply jstr_eqb_spec. reflexivity.
Qed.

Lemma fold_set_add (xs acc : list jstr) :
  NoDup acc ->
  NoDup (fold_left set_add xs acc) /\
  (forall c, In c (fold_left set_add xs acc) <-> In c acc \/ In c xs).
Proof.
  revert acc. induction xs as [|x xs IH]; intros acc Hacc; simpl.
  - split; [exact Hacc|]. intros c. tauto.
  - change (set_add acc x) with
      (if existsb (jstr_eqb x) acc then acc else acc ++ [x]).
    destruct (existsb (jstr_eqb x) acc) eqn:E.
    + apply existsb_jstr_eqb in E.
      destruct (IH acc Hacc) as [H1 H2]. split; [exact H1|].
      intros c. rewrite H2. split; [tauto|].
      intros [H|[<-|H]]; tauto.
    + assert (Hx : ~ In x acc) by (rewrite <- existsb_jstr_eqb; congruence).
      assert (Hnd : NoDup (acc ++ [x])).
      { apply NoDup_app; [exact Hacc|constructor; [intros []|constructor]|].
        intros y Hy [<-|[]]. contradiction. }
      destruct (IH (acc ++ [x]) Hnd) as [H1 H2]. split; [exact H1|].
      intros c. rewrite H2, in_app_iff. simpl. tauto.
Qed.

Lemma fold_set_add_front (c : jstr) (xs A B : list jstr) :
  A = c :: filter (fun x => negb (jstr_eqb x c)) B ->
  (forall x, In x A <-> x = c \/ In x B) ->
  fold_left set_add xs A
    = c :: filter (fun x => negb (jstr_eqb x c)) (fold_left set_add xs B).
Proof.
  revert A B. induction xs as [|x xs IH]; intros A B HA HI; simpl; [exact HA|].
  apply IH.
  - unfold set_add. destruct (jstr_eqb x c) eqn:Exc.
    + apply jstr_eqb_spec in Exc. subst x.
      assert (Hin : existsb (jstr_eqb c) A = true)
        by (apply existsb_jstr_eqb, HI; left; reflexivity).
      rewrite Hin. destruct (existsb (jstr_eqb c) B); [exact HA|].
      rewrite filter_app. simpl. rewrite (proj2 (jstr_eqb_spec c c) eq_refl).
      rewrite app_nil_r. exact HA.
    + assert (Hne : x <> c) by (intros ->; rewrite (proj2 (jstr_eqb_spec c c) eq_refl) in Exc; discriminate).
      assert (Eq : existsb (jstr_eqb x) A = existsb (jstr_eqb x) B).
      { apply eq_true_iff_eq. rewrite !existsb_jstr_eqb, HI. tauto. }
      rewrite Eq. destruct (existsb (jstr_eqb x) B); [exact HA|].
      rewrite filter_app. simpl. rewrite Exc. simpl. rewrite HA. reflexivity.
  - intros y. unfold set_add.
    destruct (existsb (jstr_eqb x) A) eqn:EA, (existsb (jstr_eqb x) B) eqn:EB;
      rewrite ?in_app_iff, HI; simpl;
      apply existsb_jstr_eqb in EA || apply (proj2 (not_true_iff_false _)) in EA;
      rewrite ?existsb_jstr_eqb in EA, EB;
      rewrite ?HI in EA; try tauto.
    all: split; [tauto|]; intros [->|[H|[<-|[]]]]; tauto.
Qed.

Lemma view_perm (toLowerCase : jstr -> jstr) (localeCompare : jstr -> jstr -> Z)
    (filter0 : FilterType) (sort : SortType) (searchTerm selectedCategory : jstr)
    (todos : list Todo) :
  Permutation
    (filteredAndSortedTodos toLowerCase localeCompare filter0 sort
       searchTerm selectedCategory todos)
    (filter (fun t => status_filter filter0 t
                      && search_match toLowerCase searchTerm t
                      && category_match selectedCategory t) todos).
Proof.
  unfold filteredAndSortedTodos, sortTodos.
  rewrite js_sort_perm, !filter_filter.
  erewrite filter_ext_eq; [reflexivity|]. intros x. apply andb_assoc.
Qed.

Lemma includes_nil (s : jstr) : includes s [] = true.
Proof. destruct s; reflexivity. Qed.

Lemma view_status_split (p : Todo -> bool) (l : list Todo) :
  (length (filter (fun t => negb (completed t) && p t) l)
   + length (filter (fun t => completed t && p t) l))%nat
  = length (filter (fun t => true && p t) l).
Proof.
  induction l as [|a l IH]; simpl; [reflexivity|].
  destruct (completed a), (p a); simpl in *; lia.
Qed.

Lemma unit_compare_total (a b : jstr) :
  unit_compare a b <= 0 \/ unit_compare b a <= 0.
Proof.
  revert b. induction a as [|x a IH]; intros [|y b]; simpl; try lia.
  destruct (x <? y) eqn:E1, (y <? x) eqn:E2; try lia.
  apply IH.
Qed.

Lemma unit_compare_trans (a b c : jstr) :
  unit_compare a b <= 0 -> unit_compare b c <= 0 -> unit_compare a c <= 0.
Proof.
  revert b c. induction a as [|x a IH]; intros [|y b] [|z c]; simpl; try lia.
  destruct (x <? y) eqn:E1, (y <? x) eqn:E2, (y <? z) eqn:E3, (z <? y) eqn:E4,
    (x <? z) eqn:E5, (z <? x) eqn:E6;
    rewrite ?Z.ltb_lt, ?Z.ltb_ge in *; try lia.
  - intros H1 H2. assert (x = y) by lia. assert (y = z) by lia. subst.
    exact (IH _ _ H1 H2).
Qed.

(** X1: toggling the same id twice gives back the list it started from. *)
Theorem toggleTodo_involutive (i : Z) (l : list Todo) :
  toggleTodo i (toggleTodo i l) = l.
Proof.
  unfold toggleTodo. induction l as [|a l IH]; simpl; [reflexivity|].
  rewrite IH. destruct a as [ai at0 ac ap acat ad acr an]; simpl.
  destruct (ai =? i) eqn:E; simpl; rewrite ?E, ?negb_involutive; reflexivity.
Qed.

(** X2: [toggleTodo] keeps the total; the completed count grows by the
    number of active tasks with that id and shrinks by the number of
    completed ones, and the active count moves the other way. *)
Theorem toggleTodo_stats (now i : Z) (l : list Todo) :
  let a := Z.of_nat (length (filter (fun t => (id t =? i) && negb (completed t)) l)) in
  let c := Z.of_nat (length (filter (fun t => (id t =? i) && completed t) l)) in
  st_total (stats now (toggleTodo i l)) = st_total (stats now l) /\
  st_completed (stats now (toggleTodo i l)) = st_completed (stats now l) + a - c /\
  st_active (stats now (toggleTodo i l)) = st_active (stats now l) - a + c.
Proof.
  cbv zeta. unfold stats, toggleTodo. cbn [st_total st_completed st_active].
  rewrite length_map. split; [reflexivity|].
  induction l as [|t l IH]; [simpl; lia|].
  cbn [map filter length].
  destruct (id t =? i) eqn:E; cbn [completed andb negb];
    destruct (completed t); cbn [andb negb length]; rewrite ?Nat2Z.inj_succ; lia.
Qed.

(** X3: deleting the id of a task just added, when no earlier task had
    that id, gives back the list as it was before the add (also when the
    add did nothing). *)
Theorem deleteTodo_addTodo (input : jstr) (pr : prio)
    (selectedCategory newCategory dueDate0 notes0 : jstr)
    (now_id now_created : Z) (todos : list Todo) :
  (forall t, In t todos -> id t <> now_id) ->
  deleteTodo now_id (addTodo input pr selectedCategory newCategory dueDate0
                       notes0 now_id now_created todos) = todos.
Proof.
  intros H. unfold addTodo.
  destruct (is_empty (trim input)); [apply deleteTodo_absent; exact H|].
  unfold deleteTodo at 1. cbn [filter id]. rewrite Z.eqb_refl. cbn [negb].
  apply deleteTodo_absent. exact H.
Qed.

Lemma deleteTodo_addTodo_witness :
  (forall t, In t (map sample_todo [1; 2]) -> id t <> 3) /\
  deleteTodo 3 (addTodo (u " Buy milk ") High (u "home") [] [] [] 3 3
                  (map sample_todo [1; 2])) = map sample_todo [1; 2].
Proof.
  split.
  - intros t Ht. simpl in Ht. unfold sample_todo in Ht.
    destruct Ht as [<-|[<-|[]]]; simpl; lia.
  - apply deleteTodo_addTodo.
    intros t Ht. simpl in Ht. unfold sample_todo in Ht.
    destruct Ht as [<-|[<-|[]]]; simpl; lia.
Defined.

(** X4: of two priority updates of the same id, the last one wins. *)
Theorem updatePriority_last_wins (i : Z) (p q : prio) (l : list Todo) :
  updatePriority i p (updatePriority i q l) = updatePriority i p l.
Proof.
  unfold updatePriority. induction l as [|a l IH]; simpl; [reflexivity|].
  rewrite IH. destruct (id a =? i) eqn:E; simpl; rewrite ?E; reflexivity.
Qed.

(** X5: changing a task's priority or saving an edit of its text never
    changes the statistics. *)
Theorem edits_keep_stats (now i : Z) (p : prio) (editText : jstr)
    (l : list Todo) :
  stats now (updatePriority i p l) = stats now l /\
  stats now (saveEdit editText i l) = stats now l.
Proof.
  split.
  - apply stats_map. intros t. destruct (id t =? i); split; reflexivity.
  - unfold saveEdit. destruct (is_empty (trim editText)); [reflexivity|].
    apply stats_map. intros t. destruct (id t =? i); split; reflexivity.
Qed.

(** X6: [toggleTodo], [saveEdit], [updatePriority] and [markAllComplete]
    never add, drop or reorder tasks and never change an id. *)
Theorem updates_keep_ids (i : Z) (p : prio) (editText : jstr) (l : list Todo) :
  map id (toggleTodo i l) = map id l /\
  map id (saveEdit editText i l) = map id l /\
  map id (updatePriority i p l) = map id l /\
  map id (markAllComplete l) = map id l.
Proof.
  unfold toggleTodo, saveEdit, updatePriority, markAllComplete.
  rewrite !map_map. repeat split.
  - apply map_ext. intros t. destruct (id t =? i); reflexivity.
  - destruct (is_empty (trim editText)); [reflexivity|].
    rewrite map_map. apply map_ext. intros t. destruct (id t =? i); reflexivity.
  - apply map_ext. intros t. destruct (id t =? i); reflexivity.
Qed.

(** X7: after [clearCompleted] the statistics show no completed task;
    the total and the active count both equal the former active count,
    and the overdue count is unchanged. *)
Theorem clearCompleted_stats (now : Z) (l : list Todo) :
  stats now (clearCompleted l) =
  {| st_total := st_active (stats now l);
     st_completed := 0;
     st_active := st_active (stats now l);
     st_overdue := st_overdue (stats now l) |}.
Proof.
  unfold stats, clearCompleted. cbn [st_active st_overdue].
  rewrite !filter_filter. f_equal.
  all: induction l as [|a l IH]; [reflexivity|]; cbn [filter];
    destruct (completed a), (has_due a), (due_before now a);
    cbn [negb andb length]; rewrite ?Nat2Z.inj_succ; lia.
Qed.

(** X8: after [markAllComplete] every task counts as completed: the
    completed count equals the total, nothing is active or overdue, and
    the completion rate shows 100 (0 for an empty list). *)
Theorem markAllComplete_stats (now : Z) (l : list Todo) :
  stats now (markAllComplete l) =
  {| st_total := st_total (stats now l);
     st_completed := st_total (stats now l);
     st_active := 0;
     st_overdue := 0 |} /\
  completion_rate (stats now (markAllComplete l)) =
  match l with [] => 0 | _ :: _ => 100 end.
Proof.
  assert (Hs : stats now (markAllComplete l) =
    {| st_total := st_total (stats now l);
       st_completed := st_total (stats now l);
       st_active := 0; st_overdue := 0 |}).
  { unfold stats, markAllComplete. cbn [st_total]. rewrite length_map.
    f_equal; f_equal.
    - induction l as [|a l IH]; simpl; [reflexivity|]. f_equal. exact IH.
    - induction l as [|a l IH]; simpl; [reflexivity|]. exact IH.
    - induction l as [|a l IH]; simpl; [reflexivity|].
      rewrite andb_false_r. exact IH. }
  split; [exact Hs|]. rewrite Hs. unfold completion_rate. cbn [st_total st_completed].
  destruct l as [|a l]; [reflexivity|].
  cbn [stats st_total length].
  set (n := Z.of_nat (S (length l))).
  assert (Hn : 0 < n) by (unfold n; lia).
  replace (0 <? n) with true by (symmetry; apply Z.ltb_lt; exact Hn).
  assert (Hq : ~ inject_Z n == 0).
  { unfold Qeq. simpl. lia. }
  unfold js_div. rewrite (round_double_Qeq (inject_Z n / inject_Z n) 1)
    by (field; exact Hq).
  vm_compute. reflexivity.
Qed.

(** X9: marking all tasks complete and then clearing the completed ones
    empties the list. *)
Theorem clearCompleted_markAllComplete (l : list Todo) :
  clearCompleted (markAllComplete l) = [].
Proof.
  unfold clearCompleted, markAllComplete.
  induction l as [|a l IH]; simpl; [reflexivity|]. exact IH.
Qed.

(** X10: [handleDrop] only reorders: the result is a permutation of the
    list, so the statistics do not change. *)
Theorem handleDrop_keeps_tasks (now : Z) (draggedItem : option Z) (targetId : Z)
    (l : list Todo) :
  Permutation (handleDrop draggedItem targetId l) l /\
  stats now (handleDrop draggedItem targetId l) = stats now l.
Proof.
  split; [apply handleDrop_perm|]. apply stats_perm. apply handleDrop_perm.
Qed.

(** X11: the overdue count equals the number of tasks shown with a red
    due-date badge ([isOverdue(todo.dueDate) && !todo.completed]). *)
Theorem stats_overdue_isOverdue (now : Z) (l : list Todo) :
  st_overdue (stats now l) =
  Z.of_nat (length (filter (fun t => isOverdue now (dueDate t) && negb (completed t)) l)).
Proof.
  unfold stats. cbn [st_overdue]. do 2 f_equal. apply filter_ext_eq. intros t.
  unfold has_due, due_before, due_time, isOverdue.
  destruct (dueDate t) as [[|c s]|]; reflexivity.
Qed.

(** X12: the category list holds each non-empty category of the tasks
    exactly once, and nothing else. *)
Theorem categories_spec (l : list Todo) :
  NoDup (categories l) /\
  forall c, In c (categories l) <-> c <> [] /\ exists t, In t l /\ category t = c.
Proof.
  unfold categories.
  destruct (fold_set_add (filter (fun c => negb (is_empty c)) (map category l)) []
              (NoDup_nil _)) as [H1 H2].
  split; [exact H1|]. intros c. rewrite H2, filter_In, in_map_iff.
  split.
  - intros [[]|[(t & Ht & Hin) Hne]]. split.
    + intros ->. discriminate.
    + exists t. split; assumption.
  - intros [Hne (t & Hin & Ht)]. right. split.
    + exists t. split; assumption.
    + destruct c; [contradiction|reflexivity].
Qed.

(** X13: adding a task with a non-empty category puts that category first
    in the category list; the others keep their order.  An empty category
    leaves the list as it was. *)
Theorem addTodo_categories (input : jstr) (pr : prio)
    (selectedCategory newCategory dueDate0 notes0 : jstr)
    (now_id now_created : Z) (todos : list Todo) :
  is_empty (trim input) = false ->
  let cat := if is_empty selectedCategory then newCategory else selectedCategory in
  categories (addTodo input pr selectedCategory newCategory dueDate0 notes0
                now_id now_created todos)
  = if is_empty cat then categories todos
    else cat :: filter (fun x => negb (jstr_eqb x cat)) (categories todos).
Proof.
  intros Hin cat. unfold addTodo. rewrite Hin. unfold categories.
  cbn [map filter category]. fold cat.
  destruct (is_empty cat) eqn:Ec; cbn [negb]; [reflexivity|].
  cbn [fold_left]. apply fold_set_add_front; [reflexivity|].
  intros x. simpl. split.
  - intros [<-|[]]. left. reflexivity.
  - intros [->|[]]. left. reflexivity.
Qed.

Lemma addTodo_categories_witness :
  is_empty (trim (u " Buy milk ")) = false /\
  categories (addTodo (u " Buy milk ") Medium (u "home") [] [] [] 5 5
                [task_with 1 Low; task_with 2 High])
  = (let cat := if is_empty (u "home") then [] else u "home" in
     if is_empty cat then categories [task_with 1 Low; task_with 2 High]
     else cat :: filter (fun x => negb (jstr_eqb x cat))
                  (categories [task_with 1 Low; task_with 2 High])).
Proof.
  split; [vm_compute; reflexivity|].
  apply addTodo_categories. vm_compute. reflexivity.
Defined.

(** X14: the view lists exactly the tasks that pass the status filter,
    the search and the category filter, each once, in some order. *)
Theorem view_contents (toLowerCase : jstr -> jstr) (localeCompare : jstr -> jstr -> Z)
    (filter0 : FilterType) (sort : SortType) (searchTerm selectedCategory : jstr)
    (todos : list Todo) :
  Permutation
    (filteredAndSortedTodos toLowerCase localeCompare filter0 sort
       searchTerm selectedCategory todos)
    (filter (fun t => status_filter filter0 t
                      && search_match toLowerCase searchTerm t
                      && category_match selectedCategory t) todos).
Proof. apply view_perm. Qed.

(** X15: with the filter on "all", an empty search term and no category
    selected, the view shows every task exactly once. *)
Theorem view_default (toLowerCase : jstr -> jstr) (localeCompare : jstr -> jstr -> Z)
    (sort : SortType) (todos : list Todo) :
  toLowerCase [] = [] ->
  Permutation (filteredAndSortedTodos toLowerCase localeCompare FAll sort [] [] todos)
    todos.
Proof.
  intros Hl. rewrite view_perm.
  rewrite (filter_ext_eq _ (fun _ => true)).
  - induction todos as [|a l IH]; simpl; [reflexivity|]. constructor. exact IH.
  - intros t. unfold search_match. rewrite Hl, includes_nil. reflexivity.
Qed.

Lemma view_default_witness :
  ascii_lower [] = [] /\
  Permutation (filteredAndSortedTodos ascii_lower (fun _ _ => 0) FAll SPriority [] []
                 [task_with 1 Low; task_with 2 High])
    [task_with 1 Low; task_with 2 High].
Proof.
  split; [reflexivity|]. apply view_default. reflexivity.
Defined.

(** X16: for the same search term and category, the "active" view and
    the "completed" view together have as many tasks as the "all" view. *)
Theorem view_status_partition (toLowerCase : jstr -> jstr)
    (localeCompare : jstr -> jstr -> Z) (sort : SortType)
    (searchTerm selectedCategory : jstr) (todos : list Todo) :
  (length (filteredAndSortedTodos toLowerCase localeCompare FActive sort
             searchTerm selectedCategory todos)
   + length (filteredAndSortedTodos toLowerCase localeCompare FCompleted sort
               searchTerm selectedCategory todos))%nat
  = length (filteredAndSortedTodos toLowerCase localeCompare FAll sort
              searchTerm selectedCategory todos).
Proof.
  rewrite !(Permutation_length (view_perm _ _ _ _ _ _ _)).
  cbn [status_filter].
  rewrite !(filter_ext_eq (fun t => _ && _ && _)
              (fun t => _ && (search_match toLowerCase searchTerm t
                              && category_match selectedCategory t)))
    by (intros t; apply eq_sym, andb_assoc).
  apply view_status_split.
Qed.

(** X17: sorting by creation date puts newer tasks first, and tasks
    created at the same instant keep their input order. *)
Theorem sort_created_spec (localeCompare : jstr -> jstr -> Z) (l : list Todo) :
  StronglySorted (fun a b => createdAt b <= createdAt a)
    (sortTodos localeCompare SCreated l) /\
  forall k, filter (fun t => createdAt t =? k) (sortTodos localeCompare SCreated l)
            = filter (fun t => createdAt t =? k) l.
Proof.
  assert (Hok : Forall (fun _ : Todo => True) l)
    by (apply Forall_forall; intros; exact I).
  split.
  - eapply ss_weaken; [|apply (js_sort_sorted Todo _ (fun _ => True))].
    + intros a b. unfold sle, sort_compare, compare_todos. lia.
    + intros a b _ _. unfold sle, sort_compare, compare_todos. lia.
    + intros a b c _ _ _. unfold sle, sort_compare, compare_todos. lia.
    + exact Hok.
  - intros k. apply (js_sort_filter Todo _ (fun _ => True)); [|exact Hok].
    intros a b _ _ Ha Hb. apply Z.eqb_eq in Ha, Hb.
    unfold sle, sort_compare, compare_todos. lia.
Qed.

(** X18: for a [localeCompare] that is a total preorder, sorting
    alphabetically leaves the tasks ordered by their text. *)
Theorem sort_alphabetical_spec (localeCompare : jstr -> jstr -> Z) (l : list Todo) :
  (forall x y, localeCompare x y <= 0 \/ localeCompare y x <= 0) ->
  (forall x y z, localeCompare x y <= 0 -> localeCompare y z <= 0 ->
                 localeCompare x z <= 0) ->
  StronglySorted (fun a b => localeCompare (text a) (text b) <= 0)
    (sortTodos localeCompare SAlphabetical l).
Proof.
  intros Htot Htr.
  eapply ss_weaken; [|apply (js_sort_sorted Todo _ (fun _ => True))].
  - intros a b. unfold sle, sort_compare, compare_todos. auto.
  - intros a b _ _. unfold sle, sort_compare, compare_todos.
    destruct (Htot (text a) (text b)); [contradiction|auto].
  - intros a b c _ _ _. unfold sle, sort_compare, compare_todos. apply Htr.
  - apply Forall_forall. intros. exact I.
Qed.

Lemma sort_alphabetical_spec_witness :
  (forall x y, unit_compare x y <= 0 \/ unit_compare y x <= 0) /\
  (forall x y z, unit_compare x y <= 0 -> unit_compare y z <= 0 ->
                 unit_compare x z <= 0) /\
  StronglySorted (fun a b => unit_compare (text a) (text b) <= 0)
    (sortTodos unit_compare SAlphabetical [task_with 2 Low; task_with 1 High]).
Proof.
  split; [exact unit_compare_total|]. split; [exact unit_compare_trans|].
  apply sort_alphabetical_spec; [exact unit_compare_total|exact unit_compare_trans].
Defined.

Lemma nodup_map_inj {A B} (f : A -> B) (l : list A) (x y : A) :
  NoDup (map f l) -> In x l -> In y l -> f x = f y -> x = y.
Proof.
  induction l as [|a l IH]; simpl; [contradiction|].
  intros Hnd Hx Hy E. inversion Hnd as [|? ? Hna Hnd']; subst.
  destruct Hx as [<-|Hx], Hy as [<-|Hy]; auto.
  - exfalso. apply Hna. rewrite E. apply in_map. exact Hy.
  - exfalso. apply Hna. rewrite <- E. apply in_map. exact Hx.
Qed.

(** X19: opening the editor on a task and saving without touching the
    draft leaves the list unchanged, when ids are distinct and the text
    has no surrounding white space; a non-blank save also closes the
    editor. *)
Theorem startEdit_saveEdit_unchanged (t : Todo) (l : list Todo) :
  In t l -> NoDup (map id l) -> trim (text t) = text t ->
  saveEditState (startEdit t) (id t) l
  = (l, if is_empty (text t) then startEdit t else cancelEdit).
Proof.
  intros Hin Hnd Htr. unfold saveEditState, startEdit. simpl editText.
  rewrite Htr. destruct (is_empty (text t)) eqn:E; [reflexivity|].
  unfold saveEdit. rewrite Htr, E. f_equal.
  rewrite <- (map_id l) at 2. apply map_ext_in. intros x Hx.
  destruct (id x =? id t) eqn:Ex; [|reflexivity].
  apply Z.eqb_eq in Ex. rewrite (nodup_map_inj id l x t Hnd Hx Hin Ex).
  destruct t; reflexivity.
Qed.

Lemma startEdit_saveEdit_unchanged_witness :
  In (task_with 2 High) [task_with 1 Low; task_with 2 High] /\
  NoDup (map id [task_with 1 Low; task_with 2 High]) /\
  trim (text (task_with 2 High)) = text (task_with 2 High) /\
  saveEditState (startEdit (task_with 2 High)) (id (task_with 2 High))
    [task_with 1 Low; task_with 2 High]
  = ([task_with 1 Low; task_with 2 High],
     if is_empty (text (task_with 2 High)) then startEdit (task_with 2 High)
     else cancelEdit).
Proof.
  assert (H1 : In (task_with 2 High) [task_with 1 Low; task_with 2 High])
    by (right; left; reflexivity).
  assert (H2 : NoDup (map id [task_with 1 Low; task_with 2 High]))
    by (simpl; repeat constructor; simpl; intuition discriminate).
  assert (H3 : trim (text (task_with 2 High)) = text (task_with 2 High))
    by (vm_compute; reflexivity).
  split; [exact H1|]. split; [exact H2|]. split; [exact H3|].
  apply startEdit_saveEdit_unchanged; assumption.
Defined.
